(** * bom-merger: a shallow embedding of [main.go] and its properties

    The Go program reads a directory of BOM fragments (concatenated JSON
    array documents), merges them into two maps keyed by project name,
    reduces license guesses, filters modules, applies overrides, derives
    VCS roots and writes both maps as arrays sorted by key.

    Modelling choices:
    - a Go [map[string]projectAndLicenses] is a [gmap string projectAndLicenses];
    - the unspecified iteration order of each [range] loop over a map is an
      explicit oracle [ord], constrained only to enumerate the keys present
      at the start of the loop, each once;
    - [float64] confidences are rationals [Q]: JSON numbers decode to finite
      floats, and [>] on finite floats is the order of the reals;
    - [panic] and returned errors are the [Fail] branch of a result type;
    - JSON decoding is abstracted: a file is the stream of decode outcomes
      the [json.Decoder] yields (a document, a decode error, or EOF);
    - [mod.DetectVCSRoot] is an external function parameter [detect]. *)

From Stdlib Require Import QArith Lqa String Ascii.
From stdpp Require Import base gmap strings list sorting.

Open Scope string_scope.

(** ** Data model ([type projectAndLicenses], [type license]) *)

Record license := mkLicense {
  Type_ : string;
  Confidence : Q
}.

Record projectAndLicenses := mkPL {
  Project : string;
  Licenses : list license;
  Error : string;
  VCS : string
}.

Abbreviation registry := (gmap string projectAndLicenses).

(** The Go zero value of [projectAndLicenses]. *)
Definition zeroPL : projectAndLicenses :=
  {| Project := ""; Licenses := []; Error := ""; VCS := "" |}.

Definition set_Licenses (ls : list license) (p : projectAndLicenses) :=
  {| Project := Project p; Licenses := ls; Error := Error p; VCS := VCS p |}.

Definition set_VCS (v : string) (p : projectAndLicenses) :=
  {| Project := Project p; Licenses := Licenses p; Error := Error p; VCS := v |}.

(** ** Errors and panics *)

Inductive err :=
  | ErrDecode                 (* json.Decoder.Decode returned a non-EOF error *)
  | ErrOverrideParse          (* json.Unmarshal of the override file failed *)
  | ErrVCS (msg : string)     (* mod.DetectVCSRoot returned an error *)
  | PanicSliceBounds          (* slice expression s[:hi] with hi > cap(s) *)
  | PanicIndex.               (* index expression out of range *)

Inductive res (A : Type) :=
  | Ok (a : A)
  | Fail (e : err).
Arguments Ok {A} a.
Arguments Fail {A} e.

Definition bind {A B} (r : res A) (k : A -> res B) : res B :=
  match r with Ok a => k a | Fail e => Fail e end.

Notation "x <- r ;; k" := (bind r (fun x => k))
  (at level 100, r at next level, right associativity).

(** ** [cleanupLicense] *)

(** [lic.Confidence > score] on finite floats. *)
Definition Qltb (x y : Q) : bool := negb (Qle_bool y x).

(** The inner loop [for i, lic := range info.Licenses] with its running
    [score] and [idx]. *)
Fixpoint maxLoop (ls : list license) (i : nat) (score : Q) (idx : nat) : nat :=
  match ls with
  | [] => idx
  | lic :: rest =>
      if Qltb score (Confidence lic)
      then maxLoop rest (S i) (Confidence lic) i
      else maxLoop rest (S i) score idx
  end.

(** Go indexing [s[i]]: panics out of range. *)
Definition index {A} (s : list A) (i : nat) : res A :=
  match s !! i with Some x => Ok x | None => Fail PanicIndex end.

(** The body of the outer loop for one record. *)
Definition cleanupInfo (info : projectAndLicenses) : res projectAndLicenses :=
  if (1 <? length (Licenses info))%nat then
    let idx := maxLoop (Licenses info) 0 0 0 in
    l <- index (Licenses info) idx ;;
    Ok (set_Licenses [l] info)
  else Ok info.

(** ** Map iteration *)

(** The [range] loops over maps in [main.go], in program order. *)
Inductive loop_id :=
  | LCleanup
  | LFilter (i : nat)
  | LOverride
  | LVCSBom
  | LVCSErrors
  | LKeysBom
  | LKeysErrors.

(** An iteration-order oracle: for a loop and the map it starts on, the
    order in which the runtime enumerates the keys. *)
Definition order := loop_id -> registry -> list string.

(** [ks] lists the keys of [m], each once, in some order. *)
Definition keys_of (ks : list string) (m : registry) : Prop :=
  ks ≡ₚ (map_to_list m).*1.

Definition valid_order (ord : order) : Prop :=
  forall (l : loop_id) (m : registry), keys_of (ord l m) m.

(** [for k, v := range m { body }]: keys enumerated in the order [ks]
    fixed at loop start; an entry deleted before it is reached is not
    produced, and [v] is the value the map holds when [k] is reached. *)
Fixpoint range_loop (ks : list string)
    (body : string -> projectAndLicenses -> registry -> res registry)
    (m : registry) : res registry :=
  match ks with
  | [] => Ok m
  | k :: ks' =>
      match m !! k with
      | None => range_loop ks' body m
      | Some v => m' <- body k v m ;; range_loop ks' body m'
      end
  end.

Definition cleanupLicense (ks : list string) (reg : registry) : res registry :=
  range_loop ks (fun project info reg =>
    info' <- cleanupInfo info ;; Ok (<[project := info']> reg)) reg.

(** ** Module filter ([for _, module := range filterModules]) *)

(** [strings.HasPrefix(s, prefix)]. *)
Definition HasPrefix (s prefix : string) : bool := String.prefix prefix s.

Definition filterModule (module : string) (ks : list string) (reg : registry)
    : res registry :=
  range_loop ks (fun project _ reg =>
    if HasPrefix project module then Ok (delete project reg) else Ok reg) reg.

(** The outer loop over the prefixes; the [i]-th prefix's inner loop is
    the loop [LFilter i]. *)
Fixpoint filterLoop (ord : order) (i : nat) (modules : list string)
    (reg : registry) : res registry :=
  match modules with
  | [] => Ok reg
  | module :: rest =>
      reg' <- filterModule module (ord (LFilter i) reg) reg ;;
      filterLoop ord (S i) rest reg'
  end.

(** ** Override applier *)

Definition applyOverrides (regOverride : registry) (ks : list string)
    (reg : registry) : res registry :=
  range_loop ks (fun project _ reg =>
    match regOverride !! project with
    | Some override => Ok (<[project := override]> reg)
    | None => Ok reg
    end) reg.

(** ** [discoverVCS] *)

(** [strings.Split(s, "/")]. *)
Fixpoint Split (s : string) : list string :=
  match s with
  | EmptyString => [""]
  | String c rest =>
      let parts := Split rest in
      if Ascii.eqb c "/"%char then "" :: parts
      else match parts with
           | p :: ps => String c p :: ps
           | [] => [String c ""]
           end
  end.

(** [strings.Join(elems, "/")]. *)
Definition Join (elems : list string) : string := String.concat "/" elems.

(** The slice expression [s[:hi]]. It panics when [hi > cap(s)]; a slice
    returned by [strings.Split] has capacity equal to its length. *)
Definition slice_to {A} (s : list A) (hi : nat) : res (list A) :=
  if (hi <=? length s)%nat then Ok (take hi s) else Fail PanicSliceBounds.

Definition discoverVCS (detect : string -> res string) (ks : list string)
    (reg : registry) : res registry :=
  range_loop ks (fun project info reg =>
    vcs <- detect (Project info) ;;
    if negb (String.eqb vcs "") then Ok (<[project := set_VCS vcs info]> reg)
    else if HasPrefix project "github.com/" then
      (* for github projects keep first 3 parts *)
      parts <- slice_to (Split project) 3 ;;
      Ok (<[project := set_VCS (Join parts) info]> reg)
    else Ok (<[project := info]> reg)) reg.

(** ** [Keys] and [writeBOM] *)

(** [sort.Strings]: ascending byte-wise order ([String.le] is the
    lexicographic order of [String.compare]). *)
Definition sortStrings (keys : list string) : list string :=
  merge_sort String.le keys.

(** [Keys(m)], where [ks] is the order the [range] loop enumerates [m]. *)
Definition Keys (ks : list string) : list string := sortStrings ks.

(** The array [writeBOM] hands to [MarshalJson]: [reg[key]] for every key
    in [Keys(reg)] (a missing key would read the zero value). *)
Definition writeBOM (ks : list string) (reg : registry) : list projectAndLicenses :=
  map (fun key => default zeroPL (reg !! key)) (Keys ks).

(** ** [loadBOM] *)

(** What successive [decoder.Decode(&info)] calls on one file yield. *)
Inductive doc_stream :=
  | DEOF
  | DError
  | DDoc (info : list projectAndLicenses) (rest : doc_stream).

(** [for _, project := range info { if project.Project == "" { continue };
    reg[project.Project] = project }]. *)
Definition mergeDoc (info : list projectAndLicenses) (reg : registry) : registry :=
  foldl (fun reg project =>
    if String.eqb (Project project) "" then reg
    else <[Project project := project]> reg) reg info.

Fixpoint loadBOM_loop (gooddoc : bool) (s : doc_stream)
    (regBOM regErrors : registry) : res (registry * registry) :=
  match s with
  | DEOF => Ok (regBOM, regErrors)
  | DError => Fail ErrDecode
  | DDoc info rest =>
      if gooddoc then loadBOM_loop false rest (mergeDoc info regBOM) regErrors
      else loadBOM_loop false rest regBOM (mergeDoc info regErrors)
  end.

Definition loadBOM (s : doc_stream) (regBOM regErrors : registry)
    : res (registry * registry) :=
  loadBOM_loop true s regBOM regErrors.

(** ** [main] *)

(** The [--override-file] flag: absent, or a file whose JSON either
    unmarshals to an array of records or does not. *)
Inductive override_src :=
  | NoOverrideFile
  | OverrideFile (parsed : option (list projectAndLicenses)).

(** An entry of [ioutil.ReadDir(dirIn)] (sorted by file name). *)
Inductive dir_entry :=
  | DirEntry
  | FileEntry (contents : doc_stream).

Definition loadOverrides (src : override_src) : res registry :=
  match src with
  | NoOverrideFile => Ok ∅
  | OverrideFile None => Fail ErrOverrideParse
  | OverrideFile (Some overrides) =>
      Ok (foldl (fun reg project => <[Project project := project]> reg) ∅ overrides)
  end.

Fixpoint loadFiles (files : list dir_entry) (regBOM regErrors : registry)
    : res (registry * registry) :=
  match files with
  | [] => Ok (regBOM, regErrors)
  | DirEntry :: fs => loadFiles fs regBOM regErrors
  | FileEntry s :: fs =>
      p <- loadBOM s regBOM regErrors ;;
      loadFiles fs p.1 p.2
  end.

(** [main] up to the two [writeBOM] calls: the final two tables. *)
Definition run (ord : order) (detect : string -> res string)
    (overrideFile : override_src) (files : list dir_entry)
    (filterModules : list string) : res (registry * registry) :=
  regOverride <- loadOverrides overrideFile ;;
  p <- loadFiles files ∅ ∅ ;;
  let regBOM := p.1 in
  let regErrors := p.2 in
  regBOM <- cleanupLicense (ord LCleanup regBOM) regBOM ;;
  regBOM <- filterLoop ord 0 filterModules regBOM ;;
  regBOM <- applyOverrides regOverride (ord LOverride regBOM) regBOM ;;
  regBOM <- discoverVCS detect (ord LVCSBom regBOM) regBOM ;;
  regErrors <- discoverVCS detect (ord LVCSErrors regErrors) regErrors ;;
  Ok (regBOM, regErrors).

(** [main]: the arrays written to [bom.json] and [bom_error.json]; on
    [Fail] the process panics before either file is written. *)
Definition main (ord : order) (detect : string -> res string)
    (overrideFile : override_src) (files : list dir_entry)
    (filterModules : list string)
    : res (list projectAndLicenses * list projectAndLicenses) :=
  p <- run ord detect overrideFile files filterModules ;;
  Ok (writeBOM (ord LKeysBom p.1) p.1, writeBOM (ord LKeysErrors p.2) p.2).

(** ** Auxiliary definitions for the statements *)

(** Some iteration order: the one of [map_to_list]. *)
Definition canon_order : order := fun _ m => (map_to_list m).*1.

(** The file contains a document the decoder rejects. *)
Fixpoint has_decode_error (s : doc_stream) : bool :=
  match s with
  | DEOF => false
  | DError => true
  | DDoc _ rest => has_decode_error rest
  end.

(** A detector that never finds a VCS root. *)
Definition no_vcs : string -> res string := fun _ => Ok "".

Definition rec (project : string) (ls : list license) : projectAndLicenses :=
  {| Project := project; Licenses := ls; Error := ""; VCS := "" |}.

(** The spec's license-reduction example. *)
Definition ex_three : projectAndLicenses :=
  rec "p" [mkLicense "A" (9 # 10); mkLicense "B" (95 # 100);
           mkLicense "C" (95 # 100)].

Definition ex_three_reg : registry := {["p" := ex_three]}.

(** The spec's filter example. *)
Definition ex_filter_reg : registry :=
  <["github.com/x/y" := rec "github.com/x/y" []]>
  (<["gitlab.com/a/b" := rec "gitlab.com/a/b" []]> ∅).

(** An override with two license guesses. *)
Definition ex_override : projectAndLicenses :=
  {| Project := "p";
     Licenses := [mkLicense "MIT" 1; mkLicense "Apache-2.0" 1];
     Error := ""; VCS := "custom" |}.

Definition ex_mit_reg : registry := {["p" := rec "p" [mkLicense "MIT" (9 # 10)]]}.

Definition ex_override_reg : registry := {["p" := ex_override]}.

Definition ex_gh_reg : registry := {["github.com/x" := rec "github.com/x" []]}.

(** The last record of [l] whose project is [k]. *)
Fixpoint lastRecord (k : string) (l : list projectAndLicenses)
    : option projectAndLicenses :=
  match l with
  | [] => None
  | r :: rest =>
      match lastRecord k rest with
      | Some r' => Some r'
      | None => if String.eqb (Project r) k then Some r else None
      end
  end.

(** A three-segment [github.com/] identifier, before and after
    [discoverVCS] with no detected root. *)
Definition ex_gh3_reg : registry :=
  {["github.com/a/b/c" := rec "github.com/a/b/c" []]}.

Definition ex_gh3_out : registry :=
  {["github.com/a/b/c" := set_VCS "github.com/a/b" (rec "github.com/a/b/c" [])]}.

(** [ex_three] after license reduction. *)
Definition ex_three_clean : registry :=
  {["p" := set_Licenses [mkLicense "B" (95 # 100)] ex_three]}.

(** A record whose guesses all have confidence 0. *)
Definition ex_zero : projectAndLicenses :=
  rec "p" [mkLicense "A" 0; mkLicense "B" 0].

Definition ex_zero_reg : registry := {["p" := ex_zero]}.

(** One input file: a resolved document with two modules, then an error
    document with one. *)
Definition ex_files : list dir_entry :=
  [FileEntry (DDoc [rec "github.com/x/y" []; rec "gitlab.com/a/b" []]
               (DDoc [rec "e" []] DEOF))].

Definition ex_e_reg : registry := {["e" := rec "e" []]}.

(** A stand-in encoder: one byte per record. *)
Definition encode_marks (l : list projectAndLicenses) : list Byte.byte :=
  map (fun _ => Byte.x00) l.

(** * Lemmas *)

Definition res_opt {A} (r : res A) : option A :=
  match r with Ok a => Some a | Fail _ => None end.

(** ** Confidence comparison and the inner [max] loop *)

Lemma Qltb_spec (x y : Q) : Qltb x y = true <-> (x < y)%Q.
Proof.
  unfold Qltb. rewrite negb_true_iff. split; intros H.
  - apply Qnot_le_lt. intros H'. apply Qle_bool_iff in H'. congruence.
  - destruct (Qle_bool y x) eqn:E; [|done]. apply Qle_bool_iff in E. lra.
Qed.

Lemma Qltb_false (x y : Q) : Qltb x y = false -> (y <= x)%Q.
Proof.
  unfold Qltb. intros H. apply negb_false_iff in H. by apply Qle_bool_iff.
Qed.

(** Either no element beats [score] and [idx] is returned, or the result
    is the position [i + j] of the first element of maximal confidence,
    which beats [score]. *)
Lemma maxLoop_spec (rest : list license) (i : nat) (score : Q) (idx : nat) :
  (maxLoop rest i score idx = idx /\
     forall j l, rest !! j = Some l -> (Confidence l <= score)%Q) \/
  (exists j l, maxLoop rest i score idx = (i + j)%nat /\ rest !! j = Some l /\
     (score < Confidence l)%Q /\
     (forall j' l', rest !! j' = Some l' -> (Confidence l' <= Confidence l)%Q) /\
     (forall j' l', (j' < j)%nat -> rest !! j' = Some l' ->
                    (Confidence l' < Confidence l)%Q)).
Proof.
  revert i score idx. induction rest as [|lic rest IH]; intros i score idx; simpl.
  - left. split; [done|]. intros j l H. by rewrite lookup_nil in H.
  - destruct (Qltb score (Confidence lic)) eqn:Hlt.
    + apply Qltb_spec in Hlt. right.
      destruct (IH (S i) (Confidence lic) i)
        as [[-> Hall] | (j & l & -> & Hj & Hlt' & Hmax & Hfirst)].
      * exists 0%nat, lic. split; [lia|]. split; [done|]. split; [done|]. split.
        -- intros [|j'] l' Hj'; simpl in Hj'; [injection Hj' as <-; lra|].
           eauto.
        -- intros j' l' Hj'. lia.
      * exists (S j), l. split; [lia|]. split; [done|]. split; [lra|]. split.
        -- intros [|j'] l' Hj'; simpl in Hj'; [injection Hj' as <-; lra|].
           eauto.
        -- intros [|j'] l' Hj' Hl'; simpl in Hl'; [injection Hl' as <-; lra|].
           apply (Hfirst j'); [lia|done].
    + apply Qltb_false in Hlt.
      destruct (IH (S i) score idx)
        as [[-> Hall] | (j & l & -> & Hj & Hlt' & Hmax & Hfirst)].
      * left. split; [done|].
        intros [|j'] l' Hj'; simpl in Hj'; [injection Hj' as <-; lra|]. eauto.
      * right. exists (S j), l. split; [lia|]. split; [done|]. split; [lra|]. split.
        -- intros [|j'] l' Hj'; simpl in Hj'; [injection Hj' as <-; lra|].
           eauto.
        -- intros [|j'] l' Hj' Hl'; simpl in Hl'; [injection Hl' as <-; lra|].
           apply (Hfirst j'); [lia|done].
Qed.

Lemma maxLoop_lt (ls : list license) :
  (0 < length ls)%nat -> (maxLoop ls 0 0 0 < length ls)%nat.
Proof.
  intros Hlen. destruct (maxLoop_spec ls 0 0 0)
    as [[-> _] | (j & l & -> & Hj & _)]; [done|].
  apply lookup_lt_Some in Hj. lia.
Qed.

(** [cleanupInfo] never panics, keeps the project name and leaves at most
    one license. *)
Lemma cleanupInfo_ok (info : projectAndLicenses) :
  exists info', cleanupInfo info = Ok info' /\ Project info' = Project info /\
    (length (Licenses info') <= 1)%nat.
Proof.
  unfold cleanupInfo. destruct (1 <? length (Licenses info))%nat eqn:Hlen.
  - apply Nat.ltb_lt in Hlen.
    pose proof (maxLoop_lt (Licenses info) ltac:(lia)) as Hidx.
    destruct (lookup_lt_is_Some_2 (Licenses info) _ Hidx) as [l Hl].
    unfold index. rewrite Hl. simpl. by eexists.
  - apply Nat.ltb_ge in Hlen. by eexists.
Qed.

(** ** Range loops that update the visited entry *)

(** [ks] enumerates the keys of [m], each once. *)
Definition enumerates (ks : list string) (m : registry) : Prop :=
  NoDup ks /\ forall k, k ∈ ks <-> is_Some (m !! k).

Lemma keys_of_enumerates (ks : list string) (m : registry) :
  keys_of ks m -> enumerates ks m.
Proof.
  unfold keys_of. intros Hp. split; [rewrite Hp; apply NoDup_fst_map_to_list|].
  intros k. rewrite Hp, list_elem_of_fmap. split.
  - intros ([k' v] & -> & Hin). apply elem_of_map_to_list in Hin. by exists v.
  - intros [v Hv]. exists (k, v). split; [done|]. by apply elem_of_map_to_list.
Qed.

Lemma valid_order_enumerates (ord : order) (l : loop_id) (m : registry) :
  valid_order ord -> enumerates (ord l m) m.
Proof. intros H. apply keys_of_enumerates, H. Qed.

Definition same_outcome {A} (r1 r2 : res A) : Prop :=
  match r1, r2 with
  | Ok a1, Ok a2 => a1 = a2
  | Fail _, Fail _ => True
  | _, _ => False
  end.

Section RangeUpdate.
Variable f : string -> projectAndLicenses -> res projectAndLicenses.
Variable body : string -> projectAndLicenses -> registry -> res registry.
Hypothesis body_f : forall k v (m0 : registry), m0 !! k = Some v ->
  body k v m0 = (v' <- f k v ;; Ok (<[k := v']> m0)).

Lemma range_loop_update (ks : list string) (m : registry) :
  NoDup ks ->
  (forall k v, k ∈ ks -> m !! k = Some v -> exists v', f k v = Ok v') ->
  exists m', range_loop ks body m = Ok m' /\
    forall x, m' !! x = if bool_decide (x ∈ ks)
                        then m !! x ≫= (fun v => res_opt (f x v))
                        else m !! x.
Proof.
  revert m. induction ks as [|k ks IH]; intros m Hnd Hok; cbn [range_loop].
  - exists m. split; [done|]. intros x. case_bool_decide; [set_solver|done].
  - apply NoDup_cons in Hnd as [Hk Hnd].
    destruct (m !! k) as [v|] eqn:Hmk.
    + destruct (Hok k v ltac:(set_solver) Hmk) as [v' Hf].
      rewrite body_f by done. rewrite Hf. simpl.
      destruct (IH (<[k := v']> m) Hnd) as [m' [Hrun Hm']].
      { intros x w Hx Hw. rewrite lookup_insert_ne in Hw by set_solver.
        apply Hok; [set_solver|done]. }
      exists m'. split; [done|]. intros x. rewrite Hm'.
      destruct (decide (x = k)) as [->|Hne].
      * rewrite bool_decide_eq_false_2 by done.
        rewrite bool_decide_eq_true_2 by set_solver.
        rewrite lookup_insert_eq, Hmk. simpl. by rewrite Hf.
      * rewrite lookup_insert_ne by congruence.
        by rewrite (bool_decide_ext (x ∈ ks) (x ∈ k :: ks)) by set_solver.
    + destruct (IH m Hnd) as [m' [Hrun Hm']].
      { intros x w Hx Hw. apply Hok; [set_solver|done]. }
      exists m'. split; [done|]. intros x. rewrite Hm'.
      destruct (decide (x = k)) as [->|Hne].
      * rewrite Hmk. by repeat case_bool_decide.
      * by rewrite (bool_decide_ext (x ∈ ks) (x ∈ k :: ks)) by set_solver.
Qed.

Lemma range_loop_update_fail (ks : list string) (m : registry) k v e :
  NoDup ks -> k ∈ ks -> m !! k = Some v -> f k v = Fail e ->
  exists e', range_loop ks body m = Fail e'.
Proof.
  revert m. induction ks as [|k0 ks IH]; intros m Hnd Hin Hmk Hf; simpl.
  - by apply not_elem_of_nil in Hin.
  - apply NoDup_cons in Hnd as [Hk0 Hnd].
    destruct (decide (k0 = k)) as [->|Hne].
    + rewrite Hmk. rewrite body_f by done. rewrite Hf. by eexists.
    + assert (k ∈ ks) as Hin' by set_solver.
      destruct (m !! k0) as [v0|] eqn:Hm0; [|by apply IH].
      rewrite body_f by done. destruct (f k0 v0) as [v0'|e0]; simpl.
      * apply IH; [done|done| |done]. by rewrite lookup_insert_ne by congruence.
      * by eexists.
Qed.
(** With [ks] an enumeration of all keys of [m]. *)
Lemma range_loop_update_all (ks : list string) (m : registry) :
  enumerates ks m ->
  (forall k v, m !! k = Some v -> exists v', f k v = Ok v') ->
  exists m', range_loop ks body m = Ok m' /\
    forall x, m' !! x = m !! x ≫= (fun v => res_opt (f x v)).
Proof.
  intros [Hnd Hks] Hok.
  destruct (range_loop_update ks m Hnd) as [m' [Hrun Hm']];
    [intros k v _; apply Hok|].
  exists m'. split; [done|]. intros x. rewrite Hm'.
  case_bool_decide as Hx; [done|].
  destruct (m !! x) eqn:Hmx; [|done].
  exfalso. apply Hx, Hks. by rewrite Hmx.
Qed.

Lemma update_dichotomy (ks : list string) (m : registry) :
  (forall k v, k ∈ ks -> m !! k = Some v -> exists v', f k v = Ok v') \/
  (exists k v e, k ∈ ks /\ m !! k = Some v /\ f k v = Fail e).
Proof.
  induction ks as [|k ks [IH|IH]].
  - left. intros k v Hk. by apply not_elem_of_nil in Hk.
  - destruct (m !! k) as [v|] eqn:Hmk.
    + destruct (f k v) as [v'|e] eqn:Hf.
      * left. intros x w Hx Hw. apply elem_of_cons in Hx as [->|Hx].
        -- rewrite Hmk in Hw. injection Hw as <-. eauto.
        -- eauto.
      * right. exists k, v, e. split_and!; [set_solver|done|done].
    + left. intros x w Hx Hw. apply elem_of_cons in Hx as [->|Hx].
      * congruence.
      * eauto.
  - right. destruct IH as (x & w & e & Hx & Hw & Hf).
    exists x, w, e. split_and!; [set_solver|done|done].
Qed.

(** Two complete enumerations of [m] lead to the same outcome: the same
    map, or a failure in both. *)
Lemma range_loop_update_same (ks1 ks2 : list string) (m : registry) :
  enumerates ks1 m -> enumerates ks2 m ->
  same_outcome (range_loop ks1 body m) (range_loop ks2 body m).
Proof.
  intros H1 H2. destruct (update_dichotomy ks1 m) as [Hok|Hbad].
  - assert (Hall : forall k v, m !! k = Some v -> exists v', f k v = Ok v').
    { intros k v Hv. apply (Hok k v); [apply H1; by rewrite Hv|done]. }
    destruct (range_loop_update_all ks1 m H1 Hall) as [m1 [-> Hm1]].
    destruct (range_loop_update_all ks2 m H2 Hall) as [m2 [-> Hm2]].
    simpl. apply map_eq. intros x. by rewrite Hm1, Hm2.
  - destruct Hbad as (k & v & e & Hk & Hmk & Hf).
    assert (Hk2 : k ∈ ks2) by (apply H2; by rewrite Hmk).
    destruct (range_loop_update_fail ks1 m k v e (proj1 H1) Hk Hmk Hf)
      as [e1 ->].
    destruct (range_loop_update_fail ks2 m k v e (proj1 H2) Hk2 Hmk Hf)
      as [e2 ->].
    done.
Qed.
End RangeUpdate.

(** ** Module filter *)

Lemma filterModule_spec (module : string) (ks : list string) (m : registry) :
  exists m', filterModule module ks m = Ok m' /\
    forall x, m' !! x = if bool_decide (x ∈ ks) && HasPrefix x module
                        then None else m !! x.
Proof.
  unfold filterModule. revert m. induction ks as [|k ks IH]; intros m;
    cbn [range_loop].
  - exists m. split; [done|]. intros x. case_bool_decide; [set_solver|done].
  - destruct (m !! k) as [v|] eqn:Hmk.
    + destruct (HasPrefix k module) eqn:Hp; simpl.
      * destruct (IH (delete k m)) as [m' [Hrun Hm']].
        exists m'. split; [done|]. intros x. rewrite Hm'.
        destruct (decide (x = k)) as [->|Hne].
        -- rewrite lookup_delete_eq, Hp.
           case_bool_decide; case_bool_decide; try set_solver; done.
        -- rewrite lookup_delete_ne by congruence.
           by rewrite (bool_decide_ext (x ∈ ks) (x ∈ k :: ks)) by set_solver.
      * destruct (IH m) as [m' [Hrun Hm']].
        exists m'. split; [done|]. intros x. rewrite Hm'.
        destruct (decide (x = k)) as [->|Hne].
        -- rewrite Hp, Hmk. by rewrite !andb_false_r.
        -- by rewrite (bool_decide_ext (x ∈ ks) (x ∈ k :: ks)) by set_solver.
    + destruct (IH m) as [m' [Hrun Hm']].
      exists m'. split; [done|]. intros x. rewrite Hm'.
      destruct (decide (x = k)) as [->|Hne].
      * rewrite Hmk. by destruct (bool_decide _ && _), (bool_decide _ && _).
      * by rewrite (bool_decide_ext (x ∈ ks) (x ∈ k :: ks)) by set_solver.
Qed.

Lemma filterLoop_spec (ord : order) (i : nat) (modules : list string)
    (m : registry) :
  valid_order ord ->
  exists m', filterLoop ord i modules m = Ok m' /\
    forall x, m' !! x = if existsb (HasPrefix x) modules then None else m !! x.
Proof.
  intros Hord. revert i m. induction modules as [|module rest IH]; intros i m;
    simpl.
  - by exists m.
  - destruct (filterModule_spec module (ord (LFilter i) m) m) as [m1 [-> Hm1]].
    simpl. destruct (IH (S i) m1) as [m' [Hrun Hm']].
    exists m'. split; [done|]. intros x. rewrite Hm', Hm1.
    destruct (HasPrefix x module) eqn:Hp; simpl.
    + rewrite andb_true_r. case_bool_decide as Hx; [by destruct (existsb _ _)|].
      assert (m !! x = None) as ->; [|by destruct (existsb _ _)].
      apply eq_None_not_Some. intros Hs.
      apply Hx, (valid_order_enumerates ord (LFilter i) m Hord), Hs.
    + by rewrite andb_false_r.
Qed.

(** ** Override applier *)

Lemma applyOverrides_spec (regOverride : registry) (ks : list string)
    (m : registry) :
  enumerates ks m ->
  exists m', applyOverrides regOverride ks m = Ok m' /\
    forall x, m' !! x = m !! x ≫= (fun v => Some (default v (regOverride !! x))).
Proof.
  intros Hks.
  destruct (range_loop_update_all
    (fun k v => Ok (default v (regOverride !! k)))
    (fun project _ reg =>
       match regOverride !! project with
       | Some override => Ok (<[project := override]> reg)
       | None => Ok reg
       end) ) with (ks := ks) (m := m) as [m' [Hrun Hm']].
  - intros k v m0 Hm0. simpl. destruct (regOverride !! k); simpl; [done|].
    by rewrite insert_id.
  - done.
  - intros k v _. by eexists.
  - exists m'. split; [done|]. intros x. rewrite Hm'. by destruct (m !! x).
Qed.

Section RangeUpdateOk.
Variable f : string -> projectAndLicenses -> res projectAndLicenses.
Variable body : string -> projectAndLicenses -> registry -> res registry.
Hypothesis body_f : forall k v (m0 : registry), m0 !! k = Some v ->
  body k v m0 = (v' <- f k v ;; Ok (<[k := v']> m0)).

Lemma range_loop_update_ok_inv (ks : list string) (m m' : registry) :
  enumerates ks m -> range_loop ks body m = Ok m' ->
  forall x, m' !! x = m !! x ≫= (fun v => res_opt (f x v)).
Proof.
  intros Hks Hrun. destruct (update_dichotomy f body body_f ks m) as [Hok|Hbad].
  - destruct (range_loop_update_all f body body_f ks m Hks) as [m2 [Hrun2 Hm2]].
    { intros k v Hv. apply (Hok k v); [apply Hks; by rewrite Hv|done]. }
    rewrite Hrun2 in Hrun. injection Hrun as <-. done.
  - destruct Hbad as (k & v & e & Hk & Hmk & Hf).
    destruct (range_loop_update_fail f body body_f ks m k v e (proj1 Hks)
      Hk Hmk Hf) as [e1 He1]. congruence.
Qed.
End RangeUpdateOk.

(** ** VCS resolver *)

(** What the loop body of [discoverVCS] stores for one entry. *)
Definition vcsOf (detect : string -> res string) (project : string)
    (info : projectAndLicenses) : res projectAndLicenses :=
  vcs <- detect (Project info) ;;
  if negb (String.eqb vcs "") then Ok (set_VCS vcs info)
  else if HasPrefix project "github.com/" then
    parts <- slice_to (Split project) 3 ;; Ok (set_VCS (Join parts) info)
  else Ok info.

Lemma discoverVCS_body (detect : string -> res string) :
  forall k v (m0 : registry), m0 !! k = Some v ->
    (fun project info reg =>
       vcs <- detect (Project info) ;;
       if negb (String.eqb vcs "") then Ok (<[project := set_VCS vcs info]> reg)
       else if HasPrefix project "github.com/" then
         parts <- slice_to (Split project) 3 ;;
         Ok (<[project := set_VCS (Join parts) info]> reg)
       else Ok (<[project := info]> reg)) k v m0
    = (v' <- vcsOf detect k v ;; Ok (<[k := v']> m0)).
Proof.
  intros k v m0 _. unfold vcsOf. simpl.
  destruct (detect (Project v)) as [vcs|e]; simpl; [|done].
  destruct (negb _); [done|]. destruct (HasPrefix k _); [|done].
  by destruct (slice_to _ _).
Qed.

Lemma vcsOf_fields (detect : string -> res string) project info info' :
  vcsOf detect project info = Ok info' ->
  Project info' = Project info /\ Licenses info' = Licenses info.
Proof.
  unfold vcsOf. destruct (detect (Project info)) as [vcs|e]; simpl; [|done].
  destruct (negb _); [by intros [= <-]|].
  destruct (HasPrefix project _); [|by intros [= <-]].
  destruct (slice_to _ _); simpl; [by intros [= <-]|done].
Qed.

Lemma discoverVCS_same (detect : string -> res string) (ks1 ks2 : list string)
    (m : registry) :
  enumerates ks1 m -> enumerates ks2 m ->
  same_outcome (discoverVCS detect ks1 m) (discoverVCS detect ks2 m).
Proof.
  apply (range_loop_update_same (vcsOf detect)). apply discoverVCS_body.
Qed.

Lemma discoverVCS_ok (detect : string -> res string) (ks : list string)
    (m m' : registry) :
  enumerates ks m -> discoverVCS detect ks m = Ok m' ->
  forall x, m' !! x = m !! x ≫= (fun v => res_opt (vcsOf detect x v)).
Proof.
  apply (range_loop_update_ok_inv (vcsOf detect)). apply discoverVCS_body.
Qed.

Lemma cleanupLicense_ok (ks : list string) (m : registry) :
  enumerates ks m ->
  exists m', cleanupLicense ks m = Ok m' /\
    forall x, m' !! x = m !! x ≫= (fun v => res_opt (cleanupInfo v)).
Proof.
  intros Hks. apply (range_loop_update_all (fun _ v => cleanupInfo v)); [done|done|].
  intros k v _. destruct (cleanupInfo_ok v) as (v' & -> & _). by eexists.
Qed.

(** ** [Keys] and [writeBOM] *)

Lemma Keys_Permutation (ks : list string) : Keys ks ≡ₚ ks.
Proof. apply merge_sort_Permutation. Qed.

Lemma Keys_Sorted (ks : list string) : Sorted String.le (Keys ks).
Proof. apply Sorted_merge_sort. apply String.le_total. Qed.

Lemma Keys_unique (ks1 ks2 : list string) (m : registry) :
  enumerates ks1 m -> enumerates ks2 m -> Keys ks1 = Keys ks2.
Proof.
  intros [Hnd1 H1] [Hnd2 H2].
  apply (Sorted_unique String.le); [apply Keys_Sorted..|].
  rewrite !Keys_Permutation. apply NoDup_Permutation; [done|done|].
  intros x. by rewrite H1, H2.
Qed.

Lemma writeBOM_same (ks1 ks2 : list string) (m : registry) :
  enumerates ks1 m -> enumerates ks2 m -> writeBOM ks1 m = writeBOM ks2 m.
Proof. intros H1 H2. unfold writeBOM. by rewrite (Keys_unique ks1 ks2 m). Qed.

(** A table whose every entry is stored under its own, non-empty name. *)
Definition wf_table (m : registry) : Prop :=
  forall k v, m !! k = Some v -> Project v = k /\ k <> "".

(** An override table: every entry stored under its own name. *)
Definition keyed (m : registry) : Prop :=
  forall k v, m !! k = Some v -> Project v = k.

Lemma writeBOM_projects (ks : list string) (m : registry) :
  wf_table m -> enumerates ks m -> map Project (writeBOM ks m) = Keys ks.
Proof.
  intros Hwf [_ Hks]. unfold writeBOM. rewrite map_map.
  rewrite <- (map_id (Keys ks)) at 2. apply map_ext_in.
  intros k Hk. apply list_elem_of_In in Hk.
  rewrite Keys_Permutation in Hk. apply Hks in Hk as [v Hv].
  rewrite Hv. simpl. by apply (Hwf k v).
Qed.

Lemma writeBOM_elem (ks : list string) (m : registry) (r : projectAndLicenses) :
  enumerates ks m -> r ∈ writeBOM ks m -> exists k, m !! k = Some r.
Proof.
  intros [_ Hks] Hr. unfold writeBOM in Hr.
  apply list_elem_of_fmap in Hr as (k & -> & Hk).
  rewrite Keys_Permutation in Hk. apply Hks in Hk as [v Hv].
  exists k. by rewrite Hv.
Qed.

(** Go's [<] on strings. *)
Definition str_lt (s t : string) : Prop := String.compare s t = Lt.

Lemma le_neq_lt (s t : string) : String.le s t -> s <> t -> str_lt s t.
Proof.
  unfold String.le, String.leb, str_lt. intros Hle Hne.
  destruct (String.compare s t) eqn:Hc; [|done|done].
  by apply String.compare_eq_iff in Hc.
Qed.

Lemma Sorted_strict (l : list string) :
  Sorted String.le l -> NoDup l -> StronglySorted str_lt l.
Proof.
  intros Hs Hnd. apply Sorted_StronglySorted in Hs; [|apply _].
  induction Hs as [|a l Hs IH Hall]; constructor.
  - apply IH. by apply NoDup_cons in Hnd as [_ ?].
  - apply NoDup_cons in Hnd as [Ha _]. rewrite Forall_forall in Hall |- *.
    intros b Hb. apply le_neq_lt; [by apply Hall|]. by intros ->.
Qed.

(** ** Table invariants through the pipeline *)

Lemma mergeDoc_wf (info : list projectAndLicenses) (m : registry) :
  wf_table m -> wf_table (mergeDoc info m).
Proof.
  unfold mergeDoc. revert m. induction info as [|p info IH]; intros m Hwf;
    simpl; [done|].
  apply IH. destruct (String.eqb (Project p) "") eqn:He; [done|].
  apply String.eqb_neq in He. intros k v Hk.
  rewrite lookup_insert in Hk. case_decide as Hpk.
  - injection Hk as <-. by subst k.
  - by apply Hwf.
Qed.

Lemma loadBOM_loop_wf (gooddoc : bool) (s : doc_stream) (b e b' e' : registry) :
  wf_table b -> wf_table e -> loadBOM_loop gooddoc s b e = Ok (b', e') ->
  wf_table b' /\ wf_table e'.
Proof.
  revert gooddoc b e. induction s as [| |info rest IH]; intros gooddoc b e Hb He;
    simpl.
  - by intros [= <- <-].
  - done.
  - destruct gooddoc; apply IH; auto using mergeDoc_wf.
Qed.

Lemma loadFiles_wf (files : list dir_entry) (b e b' e' : registry) :
  wf_table b -> wf_table e -> loadFiles files b e = Ok (b', e') ->
  wf_table b' /\ wf_table e'.
Proof.
  revert b e. induction files as [|[|s] files IH]; intros b e Hb He; simpl.
  - by intros [= <- <-].
  - by apply IH.
  - unfold loadBOM. destruct (loadBOM_loop true s b e) as [[b1 e1]|?] eqn:Hl;
      simpl; [|done].
    destruct (loadBOM_loop_wf true s b e b1 e1 Hb He Hl). by apply IH.
Qed.

Lemma wf_table_empty : wf_table ∅.
Proof. intros k v Hk. by rewrite lookup_empty in Hk. Qed.

Lemma loadOverrides_keyed (src : override_src) (ov : registry) :
  loadOverrides src = Ok ov -> keyed ov.
Proof.
  destruct src as [|[overrides|]]; simpl; [intros [= <-]| |done].
  - intros k v Hk. by rewrite lookup_empty in Hk.
  - intros [= <-]. assert (Hk0 : keyed (∅ : registry)).
    { intros k v Hk. by rewrite lookup_empty in Hk. }
    revert Hk0. generalize (∅ : registry).
    induction overrides as [|p overrides IH]; intros m Hm; simpl; [done|].
    apply IH. intros k v Hk. rewrite lookup_insert in Hk. case_decide as Hpk.
    + by injection Hk as <-.
    + by apply Hm.
Qed.

Lemma wf_table_bind (m m' : registry)
    (g : string -> projectAndLicenses -> option projectAndLicenses) :
  wf_table m ->
  (forall x v v', m !! x = Some v -> g x v = Some v' -> Project v' = Project v) ->
  (forall x, m' !! x = m !! x ≫= g x) -> wf_table m'.
Proof.
  intros Hwf Hg Hm' k v' Hk. rewrite Hm' in Hk.
  destruct (m !! k) as [v|] eqn:Hmk; simpl in Hk; [|done].
  destruct (Hwf k v Hmk) as [Hp Hne]. rewrite (Hg k v v' Hmk Hk). done.
Qed.

(** ** The pipeline, stage by stage *)

(** Whatever the iteration orders, a successful run is the composition of
    the stages' pointwise effects. *)
Lemma run_inv (ord : order) (detect : string -> res string)
    (ovr : override_src) (files : list dir_entry) (modules : list string)
    (bF eF : registry) :
  valid_order ord -> run ord detect ovr files modules = Ok (bF, eF) ->
  exists ov b0 e0 b1 b2 b3 : registry,
    loadOverrides ovr = Ok ov /\ loadFiles files ∅ ∅ = Ok (b0, e0) /\
    (forall x, b1 !! x = b0 !! x ≫= (fun v => res_opt (cleanupInfo v))) /\
    (forall x, b2 !! x = if existsb (HasPrefix x) modules then None else b1 !! x) /\
    (forall x, b3 !! x = b2 !! x ≫= (fun v => Some (default v (ov !! x)))) /\
    (forall x, bF !! x = b3 !! x ≫= (fun v => res_opt (vcsOf detect x v))) /\
    (forall x, eF !! x = e0 !! x ≫= (fun v => res_opt (vcsOf detect x v))).
Proof.
  intros Hord. unfold run.
  destruct (loadOverrides ovr) as [ov|?]; simpl; [|done].
  destruct (loadFiles files ∅ ∅) as [[b0 e0]|?]; simpl; [|done].
  destruct (cleanupLicense_ok (ord LCleanup b0) b0 (valid_order_enumerates ord _ _ Hord)) as [b1 [-> Hb1]].
  simpl. destruct (filterLoop_spec ord 0 modules b1 Hord) as [b2 [-> Hb2]].
  simpl.
  destruct (applyOverrides_spec ov (ord LOverride b2) b2 (valid_order_enumerates ord _ _ Hord))
    as [b3 [-> Hb3]].
  simpl. destruct (discoverVCS detect (ord LVCSBom b3) b3) as [b4|?] eqn:H4;
    simpl; [|done].
  destruct (discoverVCS detect (ord LVCSErrors e0) e0) as [e4|?] eqn:H5;
    simpl; [|done].
  intros [= <- <-]. exists ov, b0, e0, b1, b2, b3. split_and!; try done.
  - apply (discoverVCS_ok detect (ord LVCSBom b3)); [apply valid_order_enumerates, Hord|done].
  - apply (discoverVCS_ok detect (ord LVCSErrors e0)); [apply valid_order_enumerates, Hord|done].
Qed.

Lemma run_wf (ord : order) (detect : string -> res string)
    (ovr : override_src) (files : list dir_entry) (modules : list string)
    (bF eF : registry) :
  valid_order ord -> run ord detect ovr files modules = Ok (bF, eF) ->
  wf_table bF /\ wf_table eF.
Proof.
  intros Hord Hrun.
  destruct (run_inv ord detect ovr files modules bF eF Hord Hrun)
    as (ov & b0 & e0 & b1 & b2 & b3 & Hov & Hload & Hb1 & Hb2 & Hb3 & HbF & HeF).
  destruct (loadFiles_wf files ∅ ∅ b0 e0 wf_table_empty wf_table_empty Hload)
    as [Hwb0 Hwe0].
  assert (Hwb1 : wf_table b1).
  { apply (wf_table_bind b0 b1 (fun _ v => res_opt (cleanupInfo v))); [done| |done].
    intros x v v' _ Hc. destruct (cleanupInfo_ok v) as (w & Hw & Hp & _).
    rewrite Hw in Hc. by injection Hc as <-. }
  assert (Hwb2 : wf_table b2).
  { intros k v Hk. rewrite Hb2 in Hk. destruct (existsb _ _); [done|].
    by apply Hwb1. }
  assert (Hwb3 : wf_table b3).
  { apply (wf_table_bind b2 b3 (fun x v => Some (default v (ov !! x))));
      [done| |done].
    intros x v v' Hx Hv'. injection Hv' as <-.
    destruct (ov !! x) as [o|] eqn:Ho; simpl; [|done].
    rewrite (loadOverrides_keyed ovr ov Hov x o Ho).
    symmetry. by apply (Hwb2 x v). }
  split.
  - apply (wf_table_bind b3 bF (fun x v => res_opt (vcsOf detect x v)));
      [done| |done].
    intros x v v' _ Hv. destruct (vcsOf detect x v) eqn:Hvc; [|done].
    injection Hv as <-. by apply (vcsOf_fields detect x v).
  - apply (wf_table_bind e0 eF (fun x v => res_opt (vcsOf detect x v)));
      [done| |done].
    intros x v v' _ Hv. destruct (vcsOf detect x v) eqn:Hvc; [|done].
    injection Hv as <-. by apply (vcsOf_fields detect x v).
Qed.

Lemma cleanupInfo_max (info : projectAndLicenses) :
  (1 < length (Licenses info))%nat ->
  (forall j l, Licenses info !! j = Some l -> (0 <= Confidence l)%Q) ->
  exists i l, Licenses info !! i = Some l /\
    cleanupInfo info = Ok (set_Licenses [l] info) /\
    (forall j l', Licenses info !! j = Some l' -> (Confidence l' <= Confidence l)%Q) /\
    (forall j l', (j < i)%nat -> Licenses info !! j = Some l' ->
                  (Confidence l' < Confidence l)%Q).
Proof.
  intros Hlen Hnn. unfold cleanupInfo.
  rewrite (proj2 (Nat.ltb_lt _ _) Hlen).
  destruct (maxLoop_spec (Licenses info) 0 0 0)
    as [[Hr Hall] | (j & l & Hr & Hj & Hpos & Hmax & Hfirst)].
  - destruct (lookup_lt_is_Some_2 (Licenses info) 0 ltac:(lia)) as [l0 Hl0].
    exists 0%nat, l0. rewrite Hr. unfold index. rewrite Hl0. simpl.
    split; [done|]. split; [done|]. split.
    + intros j l' Hj. specialize (Hall j l' Hj). specialize (Hnn 0%nat l0 Hl0).
      lra.
    + intros j l' Hj. lia.
  - exists j, l. rewrite Hr, Nat.add_0_l. unfold index. rewrite Hj. simpl. auto.
Qed.

Lemma loadBOM_loop_result (gooddoc : bool) (s : doc_stream) (b e : registry) :
  (exists p, loadBOM_loop gooddoc s b e = Ok p) \/
  loadBOM_loop gooddoc s b e = Fail ErrDecode.
Proof.
  revert gooddoc b e. induction s as [| |info rest IH]; intros gooddoc b e; simpl.
  - left. by eexists.
  - by right.
  - destruct gooddoc; apply IH.
Qed.

Lemma loadBOM_loop_decode_error (gooddoc : bool) (s : doc_stream) (b e : registry) :
  has_decode_error s = true -> loadBOM_loop gooddoc s b e = Fail ErrDecode.
Proof.
  revert gooddoc b e. induction s as [| |info rest IH]; intros gooddoc b e;
    simpl; [done|done|].
  intros H. destruct gooddoc; by apply IH.
Qed.

Lemma run_errors (ord : order) (detect : string -> res string)
    (ovr : override_src) (files : list dir_entry) (modules : list string)
    (bF eF b0 e0 : registry) :
  run ord detect ovr files modules = Ok (bF, eF) ->
  loadFiles files ∅ ∅ = Ok (b0, e0) ->
  discoverVCS detect (ord LVCSErrors e0) e0 = Ok eF.
Proof.
  unfold run. intros Hrun Hload. rewrite Hload in Hrun.
  destruct (loadOverrides ovr) as [ov|?]; simpl in Hrun; [|done].
  destruct (cleanupLicense _ _) as [b1|?]; simpl in Hrun; [|done].
  destruct (filterLoop _ _ _ _) as [b2|?]; simpl in Hrun; [|done].
  destruct (applyOverrides _ _ _) as [b3|?]; simpl in Hrun; [|done].
  destruct (discoverVCS detect _ b3) as [b4|?]; simpl in Hrun; [|done].
  destruct (discoverVCS detect _ e0) as [e4|?]; simpl in Hrun; [|done].
  by injection Hrun as _ <-.
Qed.

(** The final tables do not depend on the iteration orders. *)
Lemma run_same (ord1 ord2 : order) (detect : string -> res string)
    (ovr : override_src) (files : list dir_entry) (modules : list string) :
  valid_order ord1 -> valid_order ord2 ->
  same_outcome (run ord1 detect ovr files modules)
               (run ord2 detect ovr files modules).
Proof.
  intros H1 H2. unfold run.
  destruct (loadOverrides ovr) as [ov|?]; simpl; [|done].
  destruct (loadFiles files ∅ ∅) as [[b0 e0]|?]; simpl; [|done].
  destruct (cleanupLicense_ok (ord1 LCleanup b0) b0
    (valid_order_enumerates ord1 _ _ H1)) as [c1 [-> Hc1]].
  destruct (cleanupLicense_ok (ord2 LCleanup b0) b0
    (valid_order_enumerates ord2 _ _ H2)) as [c2 [-> Hc2]].
  assert (c1 = c2) as <-.
  { apply map_eq. intros x. by rewrite Hc1, Hc2. }
  simpl.
  destruct (filterLoop_spec ord1 0 modules c1 H1) as [f1 [-> Hf1]].
  destruct (filterLoop_spec ord2 0 modules c1 H2) as [f2 [-> Hf2]].
  assert (f1 = f2) as <-.
  { apply map_eq. intros x. by rewrite Hf1, Hf2. }
  simpl.
  destruct (applyOverrides_spec ov (ord1 LOverride f1) f1
    (valid_order_enumerates ord1 _ _ H1)) as [o1 [-> Ho1]].
  destruct (applyOverrides_spec ov (ord2 LOverride f1) f1
    (valid_order_enumerates ord2 _ _ H2)) as [o2 [-> Ho2]].
  assert (o1 = o2) as <-.
  { apply map_eq. intros x. by rewrite Ho1, Ho2. }
  simpl.
  pose proof (discoverVCS_same detect (ord1 LVCSBom o1) (ord2 LVCSBom o1) o1
    (valid_order_enumerates ord1 _ _ H1) (valid_order_enumerates ord2 _ _ H2))
    as Hb.
  pose proof (discoverVCS_same detect (ord1 LVCSErrors e0) (ord2 LVCSErrors e0) e0
    (valid_order_enumerates ord1 _ _ H1) (valid_order_enumerates ord2 _ _ H2))
    as He.
  destruct (discoverVCS detect (ord1 LVCSBom o1) o1) as [x1|?],
    (discoverVCS detect (ord2 LVCSBom o1) o1) as [x2|?]; simpl in Hb |- *;
    try done.
  subst x2.
  destruct (discoverVCS detect (ord1 LVCSErrors e0) e0) as [y1|?],
    (discoverVCS detect (ord2 LVCSErrors e0) e0) as [y2|?]; simpl in He |- *;
    try done.
  by subst y2.
Qed.

(** Every record written to [bom.json] is stored, under its name, in the
    final resolved table. *)
Lemma main_bom_elem (ord : order) (detect : string -> res string)
    (ovr : override_src) (files : list dir_entry) (modules : list string)
    (bom errs : list projectAndLicenses) (r : projectAndLicenses) :
  valid_order ord -> main ord detect ovr files modules = Ok (bom, errs) ->
  r ∈ bom ->
  exists bF eF, run ord detect ovr files modules = Ok (bF, eF) /\
    bF !! Project r = Some r /\ wf_table bF /\ wf_table eF.
Proof.
  intros Hord. unfold main.
  destruct (run ord detect ovr files modules) as [[bF eF]|?] eqn:Hrun;
    simpl; [|done].
  intros [= <- <-] Hr.
  destruct (run_wf ord detect ovr files modules bF eF Hord Hrun) as [Hwb Hwe].
  destruct (writeBOM_elem (ord LKeysBom bF) bF r
    (valid_order_enumerates ord _ _ Hord) Hr) as [k Hk].
  exists bF, eF. split_and!; [done| |done|done].
  by rewrite (proj1 (Hwb k r Hk)).
Qed.

(** * Properties of the specification *)

(** ** License reducer *)

(** C1: [cleanupLicense] keeps every key; a record with at most one license
    guess is unchanged; a record with more than one guess (confidences in
    [0,1] per the data model, so non-negative) gets the one-element list of
    a guess of greatest confidence, the first such guess (strict [>] against
    a running maximum starting at 0); and [{A,0.9},{B,0.95},{C,0.95}]
    reduces to [{B,0.95}]. *)
Theorem cleanupLicense_keeps_best (ks : list string) (reg : registry) :
  keys_of ks reg ->
  (exists reg', cleanupLicense ks reg = Ok reg' /\
    (forall k, reg' !! k = None <-> reg !! k = None) /\
    (forall k info, reg !! k = Some info -> (length (Licenses info) <= 1)%nat ->
       reg' !! k = Some info) /\
    (forall k info, reg !! k = Some info -> (1 < length (Licenses info))%nat ->
       (forall j l, Licenses info !! j = Some l -> (0 <= Confidence l)%Q) ->
       exists i l, Licenses info !! i = Some l /\
         reg' !! k = Some (set_Licenses [l] info) /\
         (forall j l', Licenses info !! j = Some l' ->
                       (Confidence l' <= Confidence l)%Q) /\
         (forall j l', (j < i)%nat -> Licenses info !! j = Some l' ->
                       (Confidence l' < Confidence l)%Q))) /\
  cleanupInfo ex_three = Ok (rec "p" [mkLicense "B" (95 # 100)]).
Proof.
  intros Hks. split; [|reflexivity].
  destruct (cleanupLicense_ok ks reg (keys_of_enumerates _ _ Hks))
    as [reg' [Hrun Hreg']].
  exists reg'. split_and!; [done| | |].
  - intros k. rewrite Hreg'. destruct (reg !! k) as [v|]; simpl; [|done].
    destruct (cleanupInfo_ok v) as (w & -> & _). simpl. split; congruence.
  - intros k info Hk Hlen. rewrite Hreg', Hk. simpl. unfold cleanupInfo.
    by rewrite (proj2 (Nat.ltb_ge _ _) Hlen).
  - intros k info Hk Hlen Hnn.
    destruct (cleanupInfo_max info Hlen Hnn)
      as (i & l & Hl & Hc & Hmax & Hfirst).
    exists i, l. rewrite Hreg', Hk. simpl. rewrite Hc. auto.
Qed.

Lemma cleanupLicense_keeps_best_witness :
  keys_of ["p"] ex_three_reg /\
  (exists reg', cleanupLicense ["p"] ex_three_reg = Ok reg' /\
    (forall k, reg' !! k = None <-> ex_three_reg !! k = None) /\
    (forall k info, ex_three_reg !! k = Some info ->
       (length (Licenses info) <= 1)%nat -> reg' !! k = Some info) /\
    (forall k info, ex_three_reg !! k = Some info ->
       (1 < length (Licenses info))%nat ->
       (forall j l, Licenses info !! j = Some l -> (0 <= Confidence l)%Q) ->
       exists i l, Licenses info !! i = Some l /\
         reg' !! k = Some (set_Licenses [l] info) /\
         (forall j l', Licenses info !! j = Some l' ->
                       (Confidence l' <= Confidence l)%Q) /\
         (forall j l', (j < i)%nat -> Licenses info !! j = Some l' ->
                       (Confidence l' < Confidence l)%Q))).
Proof.
  assert (H : keys_of ["p"] ex_three_reg) by (unfold keys_of; vm_compute; reflexivity).
  split; [exact H|]. exact (proj1 (cleanupLicense_keeps_best _ _ H)).
Defined.

(** ** Output order *)

(** C2: whenever [main] writes its two files, each array is strictly
    increasing in the project identifier (Go's byte-wise [<]) and has no two
    records with the same identifier, whatever the map iteration orders. *)
Theorem main_outputs_sorted (ord : order) (detect : string -> res string)
    (ovr : override_src) (files : list dir_entry) (modules : list string)
    (bom errs : list projectAndLicenses) :
  valid_order ord -> main ord detect ovr files modules = Ok (bom, errs) ->
  StronglySorted str_lt (map Project bom) /\ NoDup (map Project bom) /\
  StronglySorted str_lt (map Project errs) /\ NoDup (map Project errs).
Proof.
  intros Hord. unfold main.
  destruct (run ord detect ovr files modules) as [[bF eF]|?] eqn:Hrun;
    simpl; [|done].
  intros [= <- <-].
  destruct (run_wf ord detect ovr files modules bF eF Hord Hrun) as [Hwb Hwe].
  pose proof (valid_order_enumerates ord LKeysBom bF Hord) as Eb.
  pose proof (valid_order_enumerates ord LKeysErrors eF Hord) as Ee.
  rewrite (writeBOM_projects _ _ Hwb Eb), (writeBOM_projects _ _ Hwe Ee).
  assert (Nb : NoDup (Keys (ord LKeysBom bF))).
  { rewrite Keys_Permutation. apply Eb. }
  assert (Ne : NoDup (Keys (ord LKeysErrors eF))).
  { rewrite Keys_Permutation. apply Ee. }
  split_and!; try done; apply Sorted_strict; auto using Keys_Sorted.
Qed.

Lemma main_outputs_sorted_witness :
  valid_order canon_order /\
  main canon_order no_vcs NoOverrideFile
    [FileEntry (DDoc [rec "b" []; rec "a" []] (DDoc [rec "e" []] DEOF))] []
  = Ok ([rec "a" []; rec "b" []], [rec "e" []]) /\
  StronglySorted str_lt (map Project [rec "a" []; rec "b" []]) /\
  NoDup (map Project [rec "a" []; rec "b" []]) /\
  StronglySorted str_lt (map Project [rec "e" []]) /\
  NoDup (map Project [rec "e" []]).
Proof.
  assert (Hord : valid_order canon_order) by (intros l m; unfold keys_of; reflexivity).
  assert (Hmain : main canon_order no_vcs NoOverrideFile
    [FileEntry (DDoc [rec "b" []; rec "a" []] (DDoc [rec "e" []] DEOF))] []
    = Ok ([rec "a" []; rec "b" []], [rec "e" []])) by (vm_compute; reflexivity).
  split; [exact Hord|]. split; [exact Hmain|].
  exact (main_outputs_sorted _ _ _ _ _ _ _ Hord Hmain).
Defined.

(** ** Ingestion *)

(** C3: in [loadBOM] the first document of a file is merged into the
    resolved table and every later document into the error table (the
    resolved table is no longer touched); a file with exactly one document
    adds nothing to the error table. *)
Theorem loadBOM_positional :
  (forall info rest (regBOM regErrors : registry),
     loadBOM (DDoc info rest) regBOM regErrors
     = loadBOM_loop false rest (mergeDoc info regBOM) regErrors) /\
  (forall info rest (regBOM regErrors : registry),
     loadBOM_loop false (DDoc info rest) regBOM regErrors
     = loadBOM_loop false rest regBOM (mergeDoc info regErrors)) /\
  (forall rest (regBOM regErrors regBOM' regErrors' : registry),
     loadBOM_loop false rest regBOM regErrors = Ok (regBOM', regErrors') ->
     regBOM' = regBOM) /\
  (forall info (regBOM regErrors : registry),
     loadBOM (DDoc info DEOF) regBOM regErrors
     = Ok (mergeDoc info regBOM, regErrors)).
Proof.
  split_and!; [done|done| |done].
  intros rest. induction rest as [| |info rest IH]; intros b e b' e'; simpl.
  - by intros [= <- _].
  - done.
  - apply IH.
Qed.

(** ** Override applier *)

(** C4: for every identifier of the resolved table with an override, the
    record becomes exactly the override record; other records are kept;
    identifiers absent from the resolved table stay absent; and every record
    of [bom.json] has an identifier that was in the resolved table built
    from the input files, whatever the override file holds. *)
Theorem applyOverrides_replaces_only (regOverride reg : registry)
    (ks : list string) :
  keys_of ks reg ->
  (exists reg', applyOverrides regOverride ks reg = Ok reg' /\
    (forall k v o, reg !! k = Some v -> regOverride !! k = Some o ->
       reg' !! k = Some o) /\
    (forall k v, reg !! k = Some v -> regOverride !! k = None ->
       reg' !! k = Some v) /\
    (forall k, reg !! k = None -> reg' !! k = None)) /\
  (forall ord detect ovr files modules bom errs (b0 e0 : registry),
     valid_order ord -> main ord detect ovr files modules = Ok (bom, errs) ->
     loadFiles files ∅ ∅ = Ok (b0, e0) ->
     forall r, r ∈ bom -> is_Some (b0 !! Project r)).
Proof.
  intros Hks. split.
  - destruct (applyOverrides_spec regOverride ks reg (keys_of_enumerates _ _ Hks))
      as [reg' [Hrun Hreg']].
    exists reg'. split_and!; [done| | |].
    + intros k v o Hk Ho. by rewrite Hreg', Hk, Ho.
    + intros k v Hk Ho. by rewrite Hreg', Hk, Ho.
    + intros k Hk. by rewrite Hreg', Hk.
  - intros ord detect ovr files modules bom errs b0 e0 Hord Hmain Hload r Hr.
    destruct (main_bom_elem ord detect ovr files modules bom errs r Hord Hmain Hr)
      as (bF & eF & Hrun & HbF & _).
    destruct (run_inv ord detect ovr files modules bF eF Hord Hrun)
      as (ov & b0' & e0' & b1 & b2 & b3 & _ & Hload' & Hb1 & Hb2 & Hb3 & HbF' & _).
    rewrite Hload in Hload'. injection Hload' as <- <-.
    rewrite HbF' in HbF. destruct (b3 !! Project r) eqn:H3; simpl in HbF; [|done].
    rewrite Hb3 in H3. destruct (b2 !! Project r) eqn:H2; simpl in H3; [|done].
    rewrite Hb2 in H2. destruct (existsb _ _); [done|].
    rewrite Hb1 in H2. destruct (b0 !! Project r); simpl in H2; [done|done].
Qed.

Lemma applyOverrides_replaces_only_witness :
  keys_of ["p"] ex_mit_reg /\
  exists reg', applyOverrides ex_override_reg ["p"]
                 ex_mit_reg = Ok reg' /\
    reg' !! "p" = Some ex_override.
Proof.
  assert (H : keys_of ["p"] ex_mit_reg)
    by (unfold keys_of; vm_compute; reflexivity).
  split; [exact H|].
  destruct (proj1 (applyOverrides_replaces_only ex_override_reg _ _ H))
    as (reg' & Hrun & Hrep & _).
  exists reg'. split; [exact Hrun|].
  exact (Hrep "p" _ ex_override eq_refl eq_refl).
Defined.

Lemma loadBOM_positional_witness :
  (exists p, loadBOM_loop false (DDoc [rec "e" []] DEOF) ex_mit_reg ∅ = Ok p) /\
  (forall regBOM' regErrors' : registry,
     loadBOM_loop false (DDoc [rec "e" []] DEOF) ex_mit_reg ∅
     = Ok (regBOM', regErrors') -> regBOM' = ex_mit_reg).
Proof.
  split; [eexists; reflexivity|].
  intros b' e'. exact (proj1 (proj2 (proj2 loadBOM_positional)) _ _ _ _ _).
Defined.

(** ** License invariant in the output *)

(** C5, as stated, fails: an override record with two license guesses is
    written to [bom.json] with both, since overrides are applied after the
    reduction and are not reduced. *)
Lemma bom_override_keeps_two_licenses :
  main canon_order no_vcs (OverrideFile (Some [ex_override]))
    [FileEntry (DDoc [rec "p" [mkLicense "MIT" (9 # 10)]] DEOF)] []
  = Ok ([ex_override], []) /\
  ex_override ∈ [ex_override] /\ (1 < length (Licenses ex_override))%nat.
Proof.
  split; [vm_compute; reflexivity|]. split; [left|]. simpl. lia.
Qed.

(** C5 (amended): after [cleanupLicense] every resolved record has at most
    one license entry; a record written to [bom.json] has at most one
    license entry when its identifier has no override, and otherwise carries
    exactly the override record's license list. *)
Theorem bom_license_count :
  (forall (ks : list string) (reg reg' : registry),
     keys_of ks reg -> cleanupLicense ks reg = Ok reg' ->
     forall k v, reg' !! k = Some v -> (length (Licenses v) <= 1)%nat) /\
  (forall ord detect ovr files modules bom errs (ov : registry),
     valid_order ord -> main ord detect ovr files modules = Ok (bom, errs) ->
     loadOverrides ovr = Ok ov ->
     forall r, r ∈ bom ->
       (ov !! Project r = None -> (length (Licenses r) <= 1)%nat) /\
       (forall o, ov !! Project r = Some o -> Licenses r = Licenses o)).
Proof.
  split.
  - intros ks reg reg' Hks Hrun k v Hv.
    destruct (cleanupLicense_ok ks reg (keys_of_enumerates _ _ Hks))
      as [reg2 [Hrun2 Hreg2]].
    rewrite Hrun in Hrun2. injection Hrun2 as <-.
    rewrite Hreg2 in Hv. destruct (reg !! k) as [w|]; simpl in Hv; [|done].
    destruct (cleanupInfo_ok w) as (w' & Hw & _ & Hlen).
    rewrite Hw in Hv. by injection Hv as <-.
  - intros ord detect ovr files modules bom errs ov Hord Hmain Hov r Hr.
    destruct (main_bom_elem ord detect ovr files modules bom errs r Hord Hmain Hr)
      as (bF & eF & Hrun & HbF & _).
    destruct (run_inv ord detect ovr files modules bF eF Hord Hrun)
      as (ov' & b0 & e0 & b1 & b2 & b3 & Hov' & _ & Hb1 & Hb2 & Hb3 & HbF' & _).
    rewrite Hov in Hov'. injection Hov' as <-.
    set (k := Project r) in *.
    rewrite HbF' in HbF. destruct (b3 !! k) as [v3|] eqn:H3; simpl in HbF; [|done].
    destruct (vcsOf detect k v3) eqn:Hv3; simpl in HbF; [|done].
    injection HbF as ->. destruct (vcsOf_fields detect k v3 r Hv3) as [_ ->].
    rewrite Hb3 in H3. destruct (b2 !! k) as [v2|] eqn:H2; simpl in H3; [|done].
    injection H3 as <-. split.
    + intros Hnone. rewrite Hnone. simpl.
      rewrite Hb2 in H2. destruct (existsb _ _); [done|].
      rewrite Hb1 in H2. destruct (b0 !! k) as [v0|]; simpl in H2; [|done].
      destruct (cleanupInfo_ok v0) as (w & Hw & _ & Hlen).
      rewrite Hw in H2. by injection H2 as <-.
    + intros o Ho. by rewrite Ho.
Qed.

Lemma bom_license_count_witness :
  valid_order canon_order /\
  main canon_order no_vcs (OverrideFile (Some [ex_override]))
    [FileEntry (DDoc [rec "p" [mkLicense "MIT" (9 # 10)]] DEOF)] []
  = Ok ([ex_override], []) /\
  loadOverrides (OverrideFile (Some [ex_override])) = Ok ex_override_reg /\
  Licenses ex_override = Licenses ex_override.
Proof.
  assert (Hord : valid_order canon_order)
    by (intros l m; unfold keys_of; reflexivity).
  assert (Hmain : main canon_order no_vcs (OverrideFile (Some [ex_override]))
    [FileEntry (DDoc [rec "p" [mkLicense "MIT" (9 # 10)]] DEOF)] []
    = Ok ([ex_override], [])) by (vm_compute; reflexivity).
  assert (Hov : loadOverrides (OverrideFile (Some [ex_override]))
    = Ok ex_override_reg) by reflexivity.
  split_and!; [exact Hord|exact Hmain|exact Hov|].
  exact (proj2 (proj2 bom_license_count _ _ _ _ _ _ _ _ Hord Hmain Hov
    ex_override (proj2 (list_elem_of_singleton _ _) eq_refl)) ex_override eq_refl).
Defined.

(** ** VCS resolver *)

(** C6: when the detector returns an empty root for a project whose
    identifier starts with ["github.com/"] but has fewer than three
    ["/"]-separated segments, [discoverVCS] panics (the slice [[:3]] is out
    of range) instead of leaving [vcs] unset; e.g. the whole run on a file
    holding the one record ["github.com/x"] panics with that error. *)
Theorem discoverVCS_short_github_panics (detect : string -> res string)
    (ks : list string) (reg : registry) (project : string)
    (info : projectAndLicenses) :
  keys_of ks reg -> reg !! project = Some info ->
  HasPrefix project "github.com/" = true ->
  (length (Split project) < 3)%nat ->
  detect (Project info) = Ok "" ->
  (exists e, discoverVCS detect ks reg = Fail e) /\
  main canon_order no_vcs NoOverrideFile
    [FileEntry (DDoc [rec "github.com/x" []] DEOF)] [] = Fail PanicSliceBounds.
Proof.
  intros Hks Hk Hpre Hlen Hdet. split; [|vm_compute; reflexivity].
  assert (Hv : vcsOf detect project info = Fail PanicSliceBounds).
  { unfold vcsOf. rewrite Hdet. simpl. rewrite Hpre. unfold slice_to.
    by rewrite (proj2 (Nat.leb_gt _ _) Hlen). }
  destruct (keys_of_enumerates _ _ Hks) as [Hnd Hin].
  unfold discoverVCS.
  apply (range_loop_update_fail (vcsOf detect) _ (discoverVCS_body detect)
    ks reg project info PanicSliceBounds Hnd); [apply Hin; by rewrite Hk|done|done].
Qed.

Lemma discoverVCS_short_github_panics_witness :
  keys_of ["github.com/x"] ex_gh_reg /\
  (exists e, discoverVCS no_vcs ["github.com/x"] ex_gh_reg = Fail e).
Proof.
  assert (Hks : keys_of ["github.com/x"] ex_gh_reg)
    by (unfold keys_of; vm_compute; reflexivity).
  split; [exact Hks|].
  exact (proj1 (discoverVCS_short_github_panics no_vcs ["github.com/x"] ex_gh_reg
    "github.com/x" (rec "github.com/x" []) Hks eq_refl eq_refl
    (proj1 (Nat.ltb_lt (length (Split "github.com/x")) 3) eq_refl) eq_refl)).
Defined.

(** ** Module filter *)

(** C7: filtering removes exactly the resolved records whose identifier
    starts with one of the prefixes and keeps the others; the error table
    written at the end is the VCS resolution of the loaded error table, so
    filtering never touches it; and filtering [{"github.com/x/y",
    "gitlab.com/a/b"}] with [github.com/x] leaves [{"gitlab.com/a/b"}]. *)
Theorem filterLoop_removes_prefixed (ord : order) (modules : list string)
    (reg : registry) :
  valid_order ord ->
  (exists reg', filterLoop ord 0 modules reg = Ok reg' /\
     (forall k, existsb (HasPrefix k) modules = true -> reg' !! k = None) /\
     (forall k, existsb (HasPrefix k) modules = false -> reg' !! k = reg !! k)) /\
  (forall detect ovr files (bF eF b0 e0 : registry),
     run ord detect ovr files modules = Ok (bF, eF) ->
     loadFiles files ∅ ∅ = Ok (b0, e0) ->
     discoverVCS detect (ord LVCSErrors e0) e0 = Ok eF) /\
  (exists reg', filterLoop canon_order 0 ["github.com/x"] ex_filter_reg = Ok reg' /\
     (map_to_list reg').*1 = ["gitlab.com/a/b"]).
Proof.
  intros Hord. split_and!.
  - destruct (filterLoop_spec ord 0 modules reg Hord) as [reg' [Hrun Hreg']].
    exists reg'. split_and!; [done| |].
    + intros k Hk. by rewrite Hreg', Hk.
    + intros k Hk. by rewrite Hreg', Hk.
  - intros detect ovr files bF eF b0 e0. apply run_errors.
  - eexists. split; [reflexivity|]. vm_compute. reflexivity.
Qed.

Lemma filterLoop_removes_prefixed_witness :
  valid_order canon_order /\
  exists reg', filterLoop canon_order 0 ["github.com/x"] ex_filter_reg = Ok reg' /\
    reg' !! "github.com/x/y" = None.
Proof.
  assert (Hord : valid_order canon_order)
    by (intros l m; unfold keys_of; reflexivity).
  split; [exact Hord|].
  destruct (proj1 (filterLoop_removes_prefixed canon_order ["github.com/x"]
    ex_filter_reg Hord)) as (reg' & Hrun & Hdel & _).
  exists reg'. split; [exact Hrun|]. by apply Hdel.
Defined.

(** ** Empty identifiers *)

Lemma mergeDoc_empty_key (info : list projectAndLicenses) (m : registry) :
  mergeDoc info m !! "" = m !! "".
Proof.
  unfold mergeDoc. revert m. induction info as [|p info IH]; intros m;
    simpl; [done|].
  rewrite IH. destruct (String.eqb (Project p) "") eqn:He; [done|].
  apply String.eqb_neq in He. by rewrite lookup_insert_ne.
Qed.

(** C8: ingestion never stores a record under the empty identifier, and
    no record written to [bom.json] or [bom_error.json] has an empty
    project identifier. *)
Theorem no_empty_identifier (ord : order) (detect : string -> res string)
    (ovr : override_src) (files : list dir_entry) (modules : list string)
    (bom errs : list projectAndLicenses) :
  valid_order ord -> main ord detect ovr files modules = Ok (bom, errs) ->
  (forall r, r ∈ (bom ++ errs)%list -> Project r <> "") /\
  (forall info (m : registry), mergeDoc info m !! "" = m !! "").
Proof.
  intros Hord Hmain. split; [|apply mergeDoc_empty_key].
  unfold main in Hmain.
  destruct (run ord detect ovr files modules) as [[bF eF]|?] eqn:Hrun;
    simpl in Hmain; [|done].
  injection Hmain as <- <-.
  destruct (run_wf ord detect ovr files modules bF eF Hord Hrun) as [Hwb Hwe].
  intros r Hr. apply elem_of_app in Hr as [Hr|Hr].
  - destruct (writeBOM_elem _ bF r (valid_order_enumerates ord _ _ Hord) Hr)
      as [k Hk].
    destruct (Hwb k r Hk) as [-> Hne]. done.
  - destruct (writeBOM_elem _ eF r (valid_order_enumerates ord _ _ Hord) Hr)
      as [k Hk].
    destruct (Hwe k r Hk) as [-> Hne]. done.
Qed.

Lemma no_empty_identifier_witness :
  valid_order canon_order /\
  main canon_order no_vcs NoOverrideFile
    [FileEntry (DDoc [rec "" []; rec "a" []] (DDoc [rec "" []] DEOF))] []
  = Ok ([rec "a" []], []) /\
  forall r, r ∈ ([rec "a" []] ++ [])%list -> Project r <> "".
Proof.
  assert (Hord : valid_order canon_order)
    by (intros l m; unfold keys_of; reflexivity).
  assert (Hmain : main canon_order no_vcs NoOverrideFile
    [FileEntry (DDoc [rec "" []; rec "a" []] (DDoc [rec "" []] DEOF))] []
    = Ok ([rec "a" []], [])) by (vm_compute; reflexivity).
  split_and!; [exact Hord|exact Hmain|].
  exact (proj1 (no_empty_identifier _ _ _ _ _ _ _ Hord Hmain)).
Defined.

(** ** Decode failures *)

(** C9: if a file reached by the ingestion loop holds a document the
    decoder rejects, loading fails with the decode error whatever the later
    files are, and [main] fails, so neither output file is written. *)
Theorem decode_error_aborts (files1 files2 : list dir_entry) (s : doc_stream) :
  has_decode_error s = true ->
  (forall (b e : registry),
     loadFiles (files1 ++ FileEntry s :: files2) b e = Fail ErrDecode) /\
  (forall ord detect ovr modules, exists err,
     main ord detect ovr (files1 ++ FileEntry s :: files2) modules = Fail err).
Proof.
  intros Hs.
  assert (Hload : forall (b e : registry),
    loadFiles (files1 ++ FileEntry s :: files2) b e = Fail ErrDecode).
  { induction files1 as [|[|s'] files1 IH]; intros b e; simpl.
    - unfold loadBOM. by rewrite loadBOM_loop_decode_error.
    - apply IH.
    - unfold loadBOM. destruct (loadBOM_loop_result true s' b e) as [[p Hp]|Hf].
      + rewrite Hp. simpl. apply IH.
      + by rewrite Hf. }
  split; [exact Hload|].
  intros ord detect ovr modules. unfold main, run.
  destruct (loadOverrides ovr) as [ov|e]; simpl.
  - rewrite Hload. simpl. by eexists.
  - by eexists.
Qed.

Lemma decode_error_aborts_witness :
  has_decode_error (DDoc [rec "a" []] DError) = true /\
  loadFiles ([] ++ FileEntry (DDoc [rec "a" []] DError) :: [FileEntry DEOF]) ∅ ∅
  = Fail ErrDecode.
Proof.
  split; [reflexivity|].
  exact (proj1 (decode_error_aborts [] [FileEntry DEOF] (DDoc [rec "a" []] DError)
    eq_refl) ∅ ∅).
Defined.

(** ** Determinism *)

(** C10: two runs of [main] on the same inputs, with the same VCS detector
    but any two map iteration orders, write the same [bom.json] and
    [bom_error.json] (the same arrays, hence the same bytes under the JSON
    encoder [encode]), or both panic before writing; this holds with or
    without override file and filter prefixes. *)
Theorem main_deterministic (ord1 ord2 : order) (detect : string -> res string)
    (ovr : override_src) (files : list dir_entry) (modules : list string)
    (encode : list projectAndLicenses -> list Byte.byte) :
  valid_order ord1 -> valid_order ord2 ->
  match main ord1 detect ovr files modules, main ord2 detect ovr files modules with
  | Ok (b1, e1), Ok (b2, e2) => encode b1 = encode b2 /\ encode e1 = encode e2
  | Fail _, Fail _ => True
  | _, _ => False
  end.
Proof.
  intros H1 H2. pose proof (run_same ord1 ord2 detect ovr files modules H1 H2)
    as Hs.
  unfold main.
  destruct (run ord1 detect ovr files modules) as [[bF eF]|?],
    (run ord2 detect ovr files modules) as [[bF' eF']|?];
    simpl in Hs |- *; try done.
  injection Hs as <- <-.
  rewrite (writeBOM_same (ord1 LKeysBom bF) (ord2 LKeysBom bF) bF
    (valid_order_enumerates _ _ _ H1) (valid_order_enumerates _ _ _ H2)).
  rewrite (writeBOM_same (ord1 LKeysErrors eF) (ord2 LKeysErrors eF) eF
    (valid_order_enumerates _ _ _ H1) (valid_order_enumerates _ _ _ H2)).
  done.
Qed.

Lemma main_deterministic_witness :
  valid_order canon_order /\
  match main canon_order no_vcs NoOverrideFile
          [FileEntry (DDoc [rec "b" []; rec "a" []] DEOF)] [],
        main canon_order no_vcs NoOverrideFile
          [FileEntry (DDoc [rec "b" []; rec "a" []] DEOF)] [] with
  | Ok (b1, e1), Ok (b2, e2) =>
      encode_marks b1 = encode_marks b2 /\ encode_marks e1 = encode_marks e2
  | Fail _, Fail _ => True
  | _, _ => False
  end.
Proof.
  assert (Hord : valid_order canon_order)
    by (intros l m; unfold keys_of; reflexivity).
  split; [exact Hord|].
  exact (main_deterministic canon_order canon_order no_vcs NoOverrideFile
    [FileEntry (DDoc [rec "b" []; rec "a" []] DEOF)] []
    encode_marks Hord Hord).
Defined.

(** * Further properties of the code *)

(** ** Ingestion *)

(** X1: merging one decoded document: an empty identifier is never
    touched; any other identifier ends up with the last record of the
    document carrying it, or keeps its old entry if there is none. *)
Theorem mergeDoc_last_wins (info : list projectAndLicenses) (m : registry)
    (k : string) :
  mergeDoc info m !! k =
    if String.eqb k "" then m !! k
    else match lastRecord k info with Some r => Some r | None => m !! k end.
Proof.
  unfold mergeDoc. revert m. induction info as [|p info IH]; intros m; simpl.
  - by destruct (String.eqb k "").
  - rewrite IH. destruct (String.eqb k "") eqn:Hk.
    + apply String.eqb_eq in Hk as ->.
      destruct (String.eqb (Project p) "") eqn:Hp; [done|].
      apply String.eqb_neq in Hp. by rewrite lookup_insert_ne.
    + apply String.eqb_neq in Hk.
      destruct (lastRecord k info) as [r|]; [done|].
      destruct (String.eqb (Project p) "") eqn:Hp.
      * apply String.eqb_eq in Hp.
        destruct (String.eqb (Project p) k) eqn:Hpk; [|done].
        apply String.eqb_eq in Hpk. congruence.
      * rewrite lookup_insert. destruct (String.eqb (Project p) k) eqn:Hpk.
        -- apply String.eqb_eq in Hpk. by rewrite decide_True.
        -- apply String.eqb_neq in Hpk. by rewrite decide_False.
Qed.


Lemma override_fold_lookup (l : list projectAndLicenses) (m : registry)
    (k : string) :
  foldl (fun reg project => <[Project project := project]> reg) m l !! k =
    match lastRecord k l with Some r => Some r | None => m !! k end.
Proof.
  revert m. induction l as [|p l IH]; intros m; simpl; [done|].
  rewrite IH. destruct (lastRecord k l) as [r|]; [done|].
  rewrite lookup_insert. destruct (String.eqb (Project p) k) eqn:Hpk.
  - apply String.eqb_eq in Hpk. by rewrite decide_True.
  - apply String.eqb_neq in Hpk. by rewrite decide_False.
Qed.

(** X3: the override table maps each identifier to the last override
    record carrying it; unlike the input documents, records with an empty
    identifier are kept (under the key [""]). *)
Theorem loadOverrides_last_wins (overrides : list projectAndLicenses)
    (k : string) :
  exists ov, loadOverrides (OverrideFile (Some overrides)) = Ok ov /\
    ov !! k = lastRecord k overrides.
Proof.
  eexists. split; [reflexivity|]. rewrite override_fold_lookup.
  destruct (lastRecord k overrides); [done|]. by rewrite lookup_empty.
Qed.

(** ** [strings.Split] and [strings.Join] *)

Lemma Split_nonempty (s : string) : Split s <> [].
Proof.
  induction s as [|c s IH]; simpl; [done|].
  destruct (Ascii.eqb c "/"%char); [done|]. by destruct (Split s).
Qed.

Lemma Join_cons2 (p q : string) (ps : list string) :
  Join (p :: q :: ps) = p ++ "/" ++ Join (q :: ps).
Proof. reflexivity. Qed.

Lemma str_append_assoc (s t u : string) : (s ++ t) ++ u = s ++ (t ++ u).
Proof.
  induction s as [|c s IH]; [reflexivity|].
  change (String c ((s ++ t) ++ u) = String c (s ++ (t ++ u))). by rewrite IH.
Qed.

Lemma str_append_nil (s : string) : s ++ "" = s.
Proof.
  induction s as [|c s IH]; [reflexivity|].
  change (String c (s ++ "") = String c s). by rewrite IH.
Qed.

Lemma prefix_append (s t : string) : String.prefix s (s ++ t) = true.
Proof.
  induction s as [|c s IH]; [by destruct t|].
  change (String.prefix (String c s) (String c (s ++ t)) = true). simpl.
  destruct (ascii_dec c c); [apply IH|done].
Qed.

Lemma Join_app (l1 l2 : list string) :
  l1 <> [] -> l2 <> [] -> Join (l1 ++ l2) = Join l1 ++ "/" ++ Join l2.
Proof.
  intros H1 H2. induction l1 as [|x l1 IH]; [done|]. destruct l1 as [|y l1].
  - destruct l2 as [|q l2]; [done|]. reflexivity.
  - change ((x :: y :: l1) ++ l2)%list with (x :: y :: (l1 ++ l2))%list.
    rewrite !Join_cons2.
    change (y :: (l1 ++ l2))%list with ((y :: l1) ++ l2)%list.
    rewrite IH by done. by rewrite !str_append_assoc.
Qed.

(** X4: joining the segments that [strings.Split] cuts at ["/"] gives the
    original string back. *)
Theorem Join_Split (s : string) : Join (Split s) = s.
Proof.
  induction s as [|c s IH]; [reflexivity|]. cbn [Split].
  destruct (Ascii.eqb c "/"%char) eqn:Hc.
  - apply Ascii.eqb_eq in Hc as ->.
    destruct (Split s) as [|q qs] eqn:Hs; [by destruct (Split_nonempty s)|].
    rewrite Join_cons2. by rewrite IH.
  - destruct (Split s) as [|p ps] eqn:Hs; [by destruct (Split_nonempty s)|].
    destruct ps as [|q qs].
    + change (p = s) in IH. change (String c p = String c s). by rewrite IH.
    + rewrite Join_cons2 in IH. rewrite Join_cons2. rewrite <- IH. reflexivity.
Qed.

(** X5: the first [n] segments of an identifier, joined back with ["/"],
    form a prefix of it; in particular the root that [discoverVCS] derives
    for a [github.com/] identifier is a prefix of the identifier. *)
Theorem Join_take_Split_prefix (s : string) (n : nat) :
  HasPrefix s (Join (take n (Split s))) = true.
Proof.
  unfold HasPrefix. destruct n as [|n]; [by destruct s|].
  destruct (decide (length (Split s) <= S n)%nat) as [Hle|Hgt].
  - rewrite take_ge by done. rewrite Join_Split.
    rewrite <- (str_append_nil s) at 2. apply prefix_append.
  - rewrite <- (Join_Split s) at 2. rewrite <- (take_drop (S n) (Split s)) at 2.
    rewrite Join_app.
    + apply prefix_append.
    + destruct (Split s) eqn:E; [by destruct (Split_nonempty s)|done].
    + intros Hd. apply (f_equal length) in Hd. rewrite length_drop in Hd.
      simpl in Hd. lia.
Qed.

(** ** [discoverVCS] *)

(** X6: a successful [discoverVCS] keeps the set of identifiers and every
    field except [VCS]; the [VCS] of an entry becomes the root detected for
    its project when that is non-empty, else the first three
    ["/"]-segments of a [github.com/] identifier, and is otherwise left as
    it was. *)
Theorem discoverVCS_entries (detect : string -> res string)
    (ks : list string) (m m' : registry) :
  keys_of ks m -> discoverVCS detect ks m = Ok m' ->
  forall k, (m !! k = None -> m' !! k = None) /\
    forall v, m !! k = Some v -> exists vcs,
      detect (Project v) = Ok vcs /\
      m' !! k = Some (if negb (String.eqb vcs "") then set_VCS vcs v
                      else if HasPrefix k "github.com/"
                      then set_VCS (Join (take 3 (Split k))) v
                      else v).
Proof.
  intros Hks Hrun k. apply keys_of_enumerates in Hks.
  pose proof (discoverVCS_ok detect ks m m' Hks Hrun k) as Hk.
  split; [intros Hn; by rewrite Hn in Hk|].
  intros v Hv. rewrite Hv in Hk. simpl in Hk.
  destruct (vcsOf detect k v) as [v'|e] eqn:Hvc.
  2:{ destruct Hks as [Hnd Hin].
      destruct (range_loop_update_fail (vcsOf detect) _ (discoverVCS_body detect)
                  ks m k v e Hnd (proj2 (Hin k) ltac:(by rewrite Hv)) Hv Hvc)
        as [e' He']. unfold discoverVCS in Hrun. congruence. }
  simpl in Hk. unfold vcsOf in Hvc.
  destruct (detect (Project v)) as [vcs|e]; simpl in Hvc; [|done].
  exists vcs. split; [done|]. rewrite Hk.
  destruct (negb _); [by injection Hvc as <-|].
  destruct (HasPrefix k _); [|by injection Hvc as <-].
  unfold slice_to in Hvc. destruct (3 <=? _)%nat; simpl in Hvc; [|done].
  by injection Hvc as <-.
Qed.

(** X7: if root detection fails for the project of any entry, the whole
    [discoverVCS] call fails. *)
Theorem discoverVCS_detect_error (detect : string -> res string)
    (ks : list string) (m : registry) (k : string) (v : projectAndLicenses)
    (e : err) :
  keys_of ks m -> m !! k = Some v -> detect (Project v) = Fail e ->
  exists e', discoverVCS detect ks m = Fail e'.
Proof.
  intros Hks Hv Hd. apply keys_of_enumerates in Hks as [Hnd Hin].
  apply (range_loop_update_fail (vcsOf detect) _ (discoverVCS_body detect)
           ks m k v e Hnd); [apply Hin; by rewrite Hv|done|].
  unfold vcsOf. by rewrite Hd.
Qed.

(** ** License reducer *)

Lemma cleanupInfo_short (info : projectAndLicenses) :
  (length (Licenses info) <= 1)%nat -> cleanupInfo info = Ok info.
Proof.
  intros Hlen. unfold cleanupInfo.
  by rewrite (proj2 (Nat.ltb_ge 1 (length (Licenses info))) Hlen).
Qed.

(** X8: [cleanupLicense] is idempotent: running it again on its own
    result, in any iteration order, changes nothing. *)
Theorem cleanupLicense_idempotent (ks ks' : list string) (m m' : registry) :
  keys_of ks m -> cleanupLicense ks m = Ok m' -> keys_of ks' m' ->
  cleanupLicense ks' m' = Ok m'.
Proof.
  intros Hks Hrun Hks'.
  destruct (cleanupLicense_ok ks m (keys_of_enumerates _ _ Hks)) as [m1 [H1 Hm1]].
  rewrite Hrun in H1. injection H1 as <-.
  destruct (cleanupLicense_ok ks' m' (keys_of_enumerates _ _ Hks')) as [m2 [-> Hm2]].
  f_equal. apply map_eq. intros x. rewrite Hm2.
  destruct (m' !! x) as [v'|] eqn:Hx; simpl; [|done].
  rewrite Hm1 in Hx. destruct (m !! x) as [v|]; simpl in Hx; [|done].
  destruct (cleanupInfo_ok v) as (w & Hw & _ & Hlen). rewrite Hw in Hx.
  injection Hx as <-. by rewrite cleanupInfo_short.
Qed.

(** X9: a record with several license guesses none of which has a
    positive confidence (all 0, say) is reduced to its first guess, since
    the running maximum starts at 0 and only a strictly greater confidence
    replaces it; the reducer never panics on such records. *)
Theorem cleanupLicense_nonpositive (ks : list string) (m : registry) :
  keys_of ks m ->
  exists m', cleanupLicense ks m = Ok m' /\
    forall k v l0 l1 rest, m !! k = Some v ->
      Licenses v = l0 :: l1 :: rest ->
      Forall (fun l => (Confidence l <= 0)%Q) (Licenses v) ->
      m' !! k = Some (set_Licenses [l0] v).
Proof.
  intros Hks.
  destruct (cleanupLicense_ok ks m (keys_of_enumerates _ _ Hks)) as [m' [Hrun Hm']].
  exists m'. split; [done|]. intros k v l0 l1 rest Hv Hls Hall.
  rewrite Hm', Hv. simpl. unfold cleanupInfo. rewrite Hls. cbn [length Nat.ltb Nat.leb].
  destruct (maxLoop_spec (l0 :: l1 :: rest) 0 0 0)
    as [[-> _] | (j & l & _ & Hj & Hpos & _)].
  - reflexivity.
  - rewrite <- Hls in Hj. rewrite Forall_lookup in Hall.
    specialize (Hall j l Hj). exfalso. lra.
Qed.

(** ** Module filter *)

Lemma existsb_same_elems (f : string -> bool) (l1 l2 : list string) :
  (forall x, x ∈ l1 <-> x ∈ l2) -> existsb f l1 = existsb f l2.
Proof.
  intros Hl. apply Bool.eq_true_iff_eq. rewrite !existsb_exists.
  split; intros (x & Hx & Hf); exists x; split; try done;
    apply list_elem_of_In, Hl, list_elem_of_In, Hx.
Qed.

(** X10: only the set of [--filter-modules] prefixes matters: two prefix
    lists with the same elements, in any order and with any repetitions,
    filter the resolved table to the same table. *)
Theorem filterLoop_prefix_set (ord1 ord2 : order) (mods1 mods2 : list string)
    (m : registry) :
  valid_order ord1 -> valid_order ord2 ->
  (forall p, p ∈ mods1 <-> p ∈ mods2) ->
  exists m', filterLoop ord1 0 mods1 m = Ok m' /\ filterLoop ord2 0 mods2 m = Ok m'.
Proof.
  intros Hord1 Hord2 Hmods.
  destruct (filterLoop_spec ord1 0 mods1 m Hord1) as [m1 [H1 Hm1]].
  destruct (filterLoop_spec ord2 0 mods2 m Hord2) as [m2 [H2 Hm2]].
  exists m1. split; [done|]. rewrite H2. f_equal. apply map_eq. intros x.
  rewrite Hm1, Hm2. by rewrite (existsb_same_elems (HasPrefix x) mods1 mods2).
Qed.

(** ** [Keys] and [writeBOM] *)

(** X11: [Keys] returns every key of the map exactly once, in strictly
    ascending order. *)
Theorem Keys_sorted_keys (ks : list string) (m : registry) :
  keys_of ks m ->
  StronglySorted str_lt (Keys ks) /\ Keys ks ≡ₚ (map_to_list m).*1.
Proof.
  intros Hks. assert (Hp : Keys ks ≡ₚ (map_to_list m).*1).
  { rewrite Keys_Permutation. apply Hks. }
  split; [|done]. apply Sorted_strict; [apply Keys_Sorted|].
  rewrite Hp. apply NoDup_fst_map_to_list.
Qed.

Lemma map_lookup_fst (m : registry) (l : list (string * projectAndLicenses)) :
  (forall kv, kv ∈ l -> m !! kv.1 = Some kv.2) ->
  map (fun key => default zeroPL (m !! key)) l.*1 = l.*2.
Proof.
  induction l as [|[k v] l IH]; intros Hl; simpl; [done|].
  assert (m !! k = Some v) as -> by (apply (Hl (k, v)); set_solver).
  simpl. f_equal.
  apply IH. intros kv Hkv. apply Hl. set_solver.
Qed.

(** X12: the array [writeBOM] writes holds exactly the records of the
    table, each once: it is a permutation of the map's values and has one
    element per entry. *)
Theorem writeBOM_values (ks : list string) (m : registry) :
  keys_of ks m ->
  writeBOM ks m ≡ₚ (map_to_list m).*2 /\ length (writeBOM ks m) = size m.
Proof.
  intros Hks.
  assert (Hp : writeBOM ks m ≡ₚ (map_to_list m).*2).
  { unfold writeBOM.
    etrans; [apply Permutation_map, Keys_Permutation|].
    etrans; [apply Permutation_map, Hks|].
    rewrite map_lookup_fst; [done|].
    intros [k v] Hkv. by apply elem_of_map_to_list. }
  split; [done|]. rewrite Hp, length_fmap. apply length_map_to_list.
Qed.

(** ** The pipeline *)

Lemma discoverVCS_all_ok (detect : string -> res string) (ks : list string)
    (m m' : registry) :
  enumerates ks m -> discoverVCS detect ks m = Ok m' ->
  forall k, (m !! k = None -> m' !! k = None) /\
    forall v, m !! k = Some v ->
      exists v', vcsOf detect k v = Ok v' /\ m' !! k = Some v'.
Proof.
  intros Hks Hrun k.
  pose proof (discoverVCS_ok detect ks m m' Hks Hrun k) as Hk.
  split; [intros Hn; by rewrite Hn in Hk|].
  intros v Hv. rewrite Hv in Hk. simpl in Hk.
  destruct (vcsOf detect k v) as [v'|e] eqn:Hvc; [by exists v'|].
  destruct Hks as [Hnd Hin].
  destruct (range_loop_update_fail (vcsOf detect) _ (discoverVCS_body detect)
              ks m k v e Hnd (proj2 (Hin k) ltac:(by rewrite Hv)) Hv Hvc)
    as [e' He']. unfold discoverVCS in Hrun. congruence.
Qed.

Lemma vcsOf_keeps (detect : string -> res string) project info info' :
  vcsOf detect project info = Ok info' ->
  Project info' = Project info /\ Licenses info' = Licenses info /\
  Error info' = Error info.
Proof.
  unfold vcsOf. destruct (detect (Project info)) as [vcs|e]; simpl; [|done].
  destruct (negb _); [by intros [= <-]|].
  destruct (HasPrefix project _); [|by intros [= <-]].
  destruct (slice_to _ _); simpl; [by intros [= <-]|done].
Qed.

(** The stages of a successful run, with the two [discoverVCS] calls. *)
Lemma run_stages (ord : order) (detect : string -> res string)
    (ovr : override_src) (files : list dir_entry) (modules : list string)
    (bF eF : registry) :
  valid_order ord -> run ord detect ovr files modules = Ok (bF, eF) ->
  exists ov b0 e0 b1 b2 b3 : registry,
    loadOverrides ovr = Ok ov /\ loadFiles files ∅ ∅ = Ok (b0, e0) /\
    (forall x, b1 !! x = b0 !! x ≫= (fun v => res_opt (cleanupInfo v))) /\
    (forall x, b2 !! x = if existsb (HasPrefix x) modules then None else b1 !! x) /\
    (forall x, b3 !! x = b2 !! x ≫= (fun v => Some (default v (ov !! x)))) /\
    discoverVCS detect (ord LVCSBom b3) b3 = Ok bF /\
    discoverVCS detect (ord LVCSErrors e0) e0 = Ok eF.
Proof.
  intros Hord. unfold run.
  destruct (loadOverrides ovr) as [ov|?]; simpl; [|done].
  destruct (loadFiles files ∅ ∅) as [[b0 e0]|?]; simpl; [|done].
  destruct (cleanupLicense_ok (ord LCleanup b0) b0 (valid_order_enumerates ord _ _ Hord)) as [b1 [-> Hb1]].
  simpl. destruct (filterLoop_spec ord 0 modules b1 Hord) as [b2 [-> Hb2]].
  simpl.
  destruct (applyOverrides_spec ov (ord LOverride b2) b2 (valid_order_enumerates ord _ _ Hord))
    as [b3 [-> Hb3]].
  simpl. destruct (discoverVCS detect (ord LVCSBom b3) b3) as [b4|?] eqn:H4;
    simpl; [|done].
  destruct (discoverVCS detect (ord LVCSErrors e0) e0) as [e4|?] eqn:H5;
    simpl; [|done].
  intros [= <- <-]. exists ov, b0, e0, b1, b2, b3. split_and!; done.
Qed.

Lemma discoverVCS_dom (detect : string -> res string) (ks : list string)
    (m m' : registry) (k : string) :
  enumerates ks m -> discoverVCS detect ks m = Ok m' ->
  is_Some (m' !! k) <-> is_Some (m !! k).
Proof.
  intros Hks Hrun. destruct (discoverVCS_all_ok detect ks m m' Hks Hrun k)
    as [Hn Hs].
  destruct (m !! k) as [v|] eqn:Hv.
  - destruct (Hs v eq_refl) as (v' & _ & ->). split; intros; by eexists.
  - rewrite (Hn eq_refl). done.
Qed.

(** X13: [bom.json] lists exactly the identifiers loaded into the resolved
    table that match none of the [--filter-modules] prefixes: overrides,
    license reduction and VCS detection never add or drop an entry. *)
Theorem main_bom_identifiers (ord : order) (detect : string -> res string)
    (ovr : override_src) (files : list dir_entry) (modules : list string)
    (bom errs : list projectAndLicenses) (b0 e0 : registry) :
  valid_order ord -> main ord detect ovr files modules = Ok (bom, errs) ->
  loadFiles files ∅ ∅ = Ok (b0, e0) ->
  forall k, k ∈ map Project bom <->
    is_Some (b0 !! k) /\ existsb (HasPrefix k) modules = false.
Proof.
  intros Hord. unfold main.
  destruct (run ord detect ovr files modules) as [[bF eF]|?] eqn:Hrun;
    simpl; [|done].
  intros [= <- <-] Hload k.
  destruct (run_wf ord detect ovr files modules bF eF Hord Hrun) as [Hwb _].
  destruct (run_stages ord detect ovr files modules bF eF Hord Hrun)
    as (ov & b0' & e0' & b1 & b2 & b3 & _ & Hload' & Hb1 & Hb2 & Hb3 & HvB & _).
  rewrite Hload in Hload'. injection Hload' as <- <-.
  pose proof (valid_order_enumerates ord LKeysBom bF Hord) as HeK.
  rewrite (writeBOM_projects _ bF Hwb HeK), Keys_Permutation.
  rewrite (proj2 HeK k).
  rewrite (discoverVCS_dom detect _ b3 bF k (valid_order_enumerates ord _ _ Hord) HvB).
  rewrite Hb3, Hb2, Hb1.
  destruct (existsb (HasPrefix k) modules).
  - simpl. split; [intros [? Hx]; done|intros [_ Hx]; done].
  - destruct (b0 !! k) as [v|]; simpl.
    + destruct (cleanupInfo_ok v) as (w & -> & _). simpl.
      split; intros; [split; [by eexists|done]|by eexists].
    + split; [intros [? Hx]; done|intros [[? Hx] _]; done].
Qed.

(** X14: [bom_error.json] lists exactly the identifiers of the loaded
    error table (prefix filtering, overrides and license reduction do not
    apply to it), and each of its records carries the loaded record's
    license list and error text unchanged. *)
Theorem main_error_records (ord : order) (detect : string -> res string)
    (ovr : override_src) (files : list dir_entry) (modules : list string)
    (bom errs : list projectAndLicenses) (b0 e0 : registry) :
  valid_order ord -> main ord detect ovr files modules = Ok (bom, errs) ->
  loadFiles files ∅ ∅ = Ok (b0, e0) ->
  (forall k, k ∈ map Project errs <-> is_Some (e0 !! k)) /\
  (forall r, r ∈ errs -> exists v, e0 !! Project r = Some v /\
     Licenses r = Licenses v /\ Error r = Error v).
Proof.
  intros Hord. unfold main.
  destruct (run ord detect ovr files modules) as [[bF eF]|?] eqn:Hrun;
    simpl; [|done].
  intros [= <- <-] Hload.
  destruct (run_wf ord detect ovr files modules bF eF Hord Hrun) as [_ Hwe].
  destruct (run_stages ord detect ovr files modules bF eF Hord Hrun)
    as (ov & b0' & e0' & b1 & b2 & b3 & _ & Hload' & _ & _ & _ & _ & HvE).
  rewrite Hload in Hload'. injection Hload' as <- <-.
  pose proof (valid_order_enumerates ord LKeysErrors eF Hord) as HeK.
  pose proof (valid_order_enumerates ord LVCSErrors e0 Hord) as He0.
  split.
  - intros k. rewrite (writeBOM_projects _ eF Hwe HeK), Keys_Permutation.
    rewrite (proj2 HeK k). apply (discoverVCS_dom detect _ e0 eF k He0 HvE).
  - intros r Hr. destruct (writeBOM_elem _ eF r HeK Hr) as [k Hk].
    rewrite (proj1 (Hwe k r Hk)).
    destruct (discoverVCS_all_ok detect _ e0 eF He0 HvE k) as [Hn Hs].
    destruct (e0 !! k) as [v|] eqn:Hv.
    + destruct (Hs v eq_refl) as (v' & Hvc & Hv'). rewrite Hk in Hv'.
      injection Hv' as <-. exists v. destruct (vcsOf_keeps detect k v r Hvc)
        as (_ & Hl & He). done.
    + rewrite (Hn eq_refl) in Hk. done.
Qed.

Lemma loadFiles_dirs (files : list dir_entry) (b e : registry) :
  Forall (fun f => f = DirEntry) files -> loadFiles files b e = Ok (b, e).
Proof. induction 1 as [|f fs -> _ IH]; simpl; [done|apply IH]. Qed.

Lemma keys_of_empty (ks : list string) : keys_of ks ∅ -> ks = [].
Proof.
  unfold keys_of. rewrite map_to_list_empty. simpl. intros H. symmetry in H. by apply Permutation_nil.
Qed.

(** X15: with no input files (only sub-directories, or nothing, in the
    input directory) and a readable override file, both output arrays are
    empty: overrides never create entries. *)
Theorem main_no_files (ord : order) (detect : string -> res string)
    (ovr : override_src) (files : list dir_entry) (modules : list string)
    (ov : registry) :
  valid_order ord -> Forall (fun f => f = DirEntry) files ->
  loadOverrides ovr = Ok ov ->
  main ord detect ovr files modules = Ok ([], []).
Proof.
  intros Hord Hfiles Hov.
  assert (Hemp : forall l, ord l ∅ = []) by (intros l; apply keys_of_empty, Hord).
  destruct (filterLoop_spec ord 0 modules ∅ Hord) as [m2 [Hf Hm2]].
  assert (m2 = ∅) as ->.
  { apply map_eq. intros x. rewrite Hm2, lookup_empty. by destruct (existsb _ _). }
  unfold main, run. rewrite Hov. cbn [bind].
  rewrite (loadFiles_dirs files ∅ ∅ Hfiles). cbn [bind fst snd].
  rewrite Hemp. cbn [cleanupLicense range_loop bind]. unfold cleanupLicense.
  cbn [range_loop bind]. rewrite Hf. cbn [bind].
  rewrite Hemp. unfold applyOverrides. cbn [range_loop bind].
  rewrite !Hemp. unfold discoverVCS. cbn [range_loop bind fst snd].
  rewrite !Hemp. reflexivity.
Qed.

(** * Witnesses *)

Lemma discoverVCS_entries_witness :
  keys_of ["github.com/a/b/c"] ex_gh3_reg /\
  discoverVCS no_vcs ["github.com/a/b/c"] ex_gh3_reg = Ok ex_gh3_out /\
  ex_gh3_out !! "github.com/a/b/c" =
    Some (set_VCS "github.com/a/b" (rec "github.com/a/b/c" [])).
Proof.
  assert (Hk : keys_of ["github.com/a/b/c"] ex_gh3_reg)
    by (unfold keys_of; vm_compute; reflexivity).
  assert (Hr : discoverVCS no_vcs ["github.com/a/b/c"] ex_gh3_reg = Ok ex_gh3_out)
    by (vm_compute; reflexivity).
  split; [exact Hk|]. split; [exact Hr|].
  destruct (proj2 (discoverVCS_entries no_vcs _ _ _ Hk Hr "github.com/a/b/c")
              (rec "github.com/a/b/c" []) ltac:(vm_compute; reflexivity))
    as (vcs & Hd & Ho).
  unfold no_vcs in Hd. injection Hd as <-. rewrite Ho. vm_compute. reflexivity.
Defined.

Lemma discoverVCS_detect_error_witness :
  keys_of ["p"] ex_three_reg /\ ex_three_reg !! "p" = Some ex_three /\
  exists e', discoverVCS (fun _ => Fail (ErrVCS "no root")) ["p"] ex_three_reg
             = Fail e'.
Proof.
  assert (Hk : keys_of ["p"] ex_three_reg)
    by (unfold keys_of; vm_compute; reflexivity).
  assert (Hv : ex_three_reg !! "p" = Some ex_three) by (vm_compute; reflexivity).
  split; [exact Hk|]. split; [exact Hv|].
  exact (discoverVCS_detect_error (fun _ => Fail (ErrVCS "no root")) ["p"]
           ex_three_reg "p" ex_three (ErrVCS "no root") Hk Hv eq_refl).
Defined.

Lemma cleanupLicense_idempotent_witness :
  keys_of ["p"] ex_three_reg /\
  cleanupLicense ["p"] ex_three_reg = Ok ex_three_clean /\
  keys_of ["p"] ex_three_clean /\
  cleanupLicense ["p"] ex_three_clean = Ok ex_three_clean.
Proof.
  assert (Hk : keys_of ["p"] ex_three_reg)
    by (unfold keys_of; vm_compute; reflexivity).
  assert (Hr : cleanupLicense ["p"] ex_three_reg = Ok ex_three_clean)
    by (vm_compute; reflexivity).
  assert (Hk' : keys_of ["p"] ex_three_clean)
    by (unfold keys_of; vm_compute; reflexivity).
  split_and!; [exact Hk|exact Hr|exact Hk'|].
  exact (cleanupLicense_idempotent ["p"] ["p"] ex_three_reg ex_three_clean Hk Hr Hk').
Defined.

Lemma cleanupLicense_nonpositive_witness :
  keys_of ["p"] ex_zero_reg /\
  exists m', cleanupLicense ["p"] ex_zero_reg = Ok m' /\
    m' !! "p" = Some (set_Licenses [mkLicense "A" 0] ex_zero).
Proof.
  assert (Hk : keys_of ["p"] ex_zero_reg)
    by (unfold keys_of; vm_compute; reflexivity).
  split; [exact Hk|].
  destruct (cleanupLicense_nonpositive ["p"] ex_zero_reg Hk) as [m' [Hr Hm']].
  exists m'. split; [exact Hr|].
  apply (Hm' "p" ex_zero (mkLicense "A" 0) (mkLicense "B" 0) []);
    [vm_compute; reflexivity|reflexivity|].
  repeat constructor; simpl; lra.
Defined.

Lemma filterLoop_prefix_set_witness :
  valid_order canon_order /\
  (forall p, p ∈ ["github.com/"; "gitlab.com/"] <->
             p ∈ ["gitlab.com/"; "github.com/"; "gitlab.com/"]) /\
  exists m', filterLoop canon_order 0 ["github.com/"; "gitlab.com/"] ex_filter_reg
               = Ok m' /\
             filterLoop canon_order 0 ["gitlab.com/"; "github.com/"; "gitlab.com/"]
               ex_filter_reg = Ok m'.
Proof.
  assert (Hord : valid_order canon_order)
    by (intros l m; unfold keys_of; reflexivity).
  assert (Hs : forall p, p ∈ ["github.com/"; "gitlab.com/"] <->
                         p ∈ ["gitlab.com/"; "github.com/"; "gitlab.com/"])
    by (intros p; set_solver).
  split; [exact Hord|]. split; [exact Hs|].
  exact (filterLoop_prefix_set canon_order canon_order _ _ ex_filter_reg
           Hord Hord Hs).
Defined.

Lemma Keys_sorted_keys_witness :
  keys_of (canon_order LKeysBom ex_filter_reg) ex_filter_reg /\
  StronglySorted str_lt (Keys (canon_order LKeysBom ex_filter_reg)) /\
  Keys (canon_order LKeysBom ex_filter_reg) ≡ₚ (map_to_list ex_filter_reg).*1.
Proof.
  assert (Hk : keys_of (canon_order LKeysBom ex_filter_reg) ex_filter_reg)
    by (unfold keys_of; reflexivity).
  split; [exact Hk|]. exact (Keys_sorted_keys _ ex_filter_reg Hk).
Defined.

Lemma writeBOM_values_witness :
  keys_of (canon_order LKeysBom ex_filter_reg) ex_filter_reg /\
  length (writeBOM (canon_order LKeysBom ex_filter_reg) ex_filter_reg)
    = size ex_filter_reg.
Proof.
  assert (Hk : keys_of (canon_order LKeysBom ex_filter_reg) ex_filter_reg)
    by (unfold keys_of; reflexivity).
  split; [exact Hk|]. exact (proj2 (writeBOM_values _ ex_filter_reg Hk)).
Defined.

Lemma main_bom_identifiers_witness :
  valid_order canon_order /\
  main canon_order no_vcs NoOverrideFile ex_files ["github.com/"]
    = Ok ([rec "gitlab.com/a/b" []], [rec "e" []]) /\
  loadFiles ex_files ∅ ∅ = Ok (ex_filter_reg, ex_e_reg) /\
  forall k, k ∈ map Project [rec "gitlab.com/a/b" []] <->
    is_Some (ex_filter_reg !! k) /\ existsb (HasPrefix k) ["github.com/"] = false.
Proof.
  assert (Hord : valid_order canon_order)
    by (intros l m; unfold keys_of; reflexivity).
  assert (Hmain : main canon_order no_vcs NoOverrideFile ex_files ["github.com/"]
                  = Ok ([rec "gitlab.com/a/b" []], [rec "e" []]))
    by (vm_compute; reflexivity).
  assert (Hload : loadFiles ex_files ∅ ∅ = Ok (ex_filter_reg, ex_e_reg))
    by (vm_compute; reflexivity).
  split_and!; [exact Hord|exact Hmain|exact Hload|].
  exact (main_bom_identifiers _ _ _ _ _ _ _ _ _ Hord Hmain Hload).
Defined.

Lemma main_error_records_witness :
  valid_order canon_order /\
  main canon_order no_vcs NoOverrideFile ex_files ["github.com/"]
    = Ok ([rec "gitlab.com/a/b" []], [rec "e" []]) /\
  loadFiles ex_files ∅ ∅ = Ok (ex_filter_reg, ex_e_reg) /\
  forall k, k ∈ map Project [rec "e" []] <-> is_Some (ex_e_reg !! k).
Proof.
  assert (Hord : valid_order canon_order)
    by (intros l m; unfold keys_of; reflexivity).
  assert (Hmain : main canon_order no_vcs NoOverrideFile ex_files ["github.com/"]
                  = Ok ([rec "gitlab.com/a/b" []], [rec "e" []]))
    by (vm_compute; reflexivity).
  assert (Hload : loadFiles ex_files ∅ ∅ = Ok (ex_filter_reg, ex_e_reg))
    by (vm_compute; reflexivity).
  split_and!; [exact Hord|exact Hmain|exact Hload|].
  exact (proj1 (main_error_records _ _ _ _ _ _ _ _ _ Hord Hmain Hload)).
Defined.

Lemma main_no_files_witness :
  valid_order canon_order /\ Forall (fun f => f = DirEntry) [DirEntry] /\
  loadOverrides (OverrideFile (Some [ex_override])) = Ok ex_override_reg /\
  main canon_order no_vcs (OverrideFile (Some [ex_override])) [DirEntry] ["x"]
    = Ok ([], []).
Proof.
  assert (Hord : valid_order canon_order)
    by (intros l m; unfold keys_of; reflexivity).
  assert (Hf : Forall (fun f => f = DirEntry) [DirEntry]) by (repeat constructor).
  assert (Hov : loadOverrides (OverrideFile (Some [ex_override])) = Ok ex_override_reg)
    by (vm_compute; reflexivity).
  split_and!; [exact Hord|exact Hf|exact Hov|].
  exact (main_no_files _ no_vcs _ _ ["x"] _ Hord Hf Hov).
Defined.
